(** * The OCR converter front end (frontend/src/App.js): annotation engine

    A shallow embedding of the [App] component of [frontend/src/App.js]:
    its ten [useState] cells, its event handlers, and the rendering
    conditions of the JSX that decide which handler can fire in which state.

    - JavaScript strings are sequences of UTF-16 code units.
    - JavaScript Numbers are IEEE 754 binary64 values: the primitive
      [float] of the kernel, specified by [SpecFloat]. Nothing is computed
      on idealised reals; rationals only measure what the Numbers denote.
    - The [unsigned long] attributes of the DOM ([img.width],
      [img.naturalWidth], ...) are integers in [0, 2^32).
    - An [async] handler is split at its [await]: the part that runs at the
      click, and the continuation that runs when the promise settles.
    - A handler reads the state of the render it was created in. React
      renders between two events, so a handler reads the current state;
      the continuation of an [async] handler only calls setters, with
      values of the response.
    - The server is not modelled: a response is any [OcrResult]. *)

From Stdlib Require Import ZArith List Bool String Ascii DecimalString Lia.
From Stdlib Require Import DecimalPos.
From Stdlib Require Import QArith Qround Qpower Qabs Lqa.
From Stdlib Require Import Floats.
Import ListNotations.

Local Open Scope Z_scope.

(* ===================================================================== *)
(** ** JavaScript strings *)
(* ===================================================================== *)

Module JsString.

(** A string value is a finite sequence of 16-bit code units. *)
Definition code_unit := N.
Definition t := list code_unit.

(** An ASCII literal as a JavaScript string. *)
Definition lit (s : string) : t :=
  List.map N_of_ascii (list_ascii_of_string s).

(** ECMAScript [WhiteSpace] and [LineTerminator] code points, the ones
    [String.prototype.trim] strips. All of them are in the BMP, so the
    test is on one code unit. *)
Definition is_white_space (c : code_unit) : bool :=
  ((c =? 0x0009) || (c =? 0x000A) || (c =? 0x000B) || (c =? 0x000C)
   || (c =? 0x000D) || (c =? 0x0020) || (c =? 0x00A0) || (c =? 0x1680)
   || ((0x2000 <=? c) && (c <=? 0x200A))
   || (c =? 0x2028) || (c =? 0x2029) || (c =? 0x202F) || (c =? 0x205F)
   || (c =? 0x3000) || (c =? 0xFEFF))%N.

Fixpoint trimStart (s : t) : t :=
  match s with
  | [] => []
  | c :: s' => if is_white_space c then trimStart s' else s
  end.

Definition trimEnd (s : t) : t := rev (trimStart (rev s)).

(** [String.prototype.trim]. *)
Definition trim (s : t) : t := trimEnd (trimStart s).

(** [ToBoolean] of a string: the empty string is the only falsy one. *)
Definition truthy (s : t) : bool :=
  match s with [] => false | _ :: _ => true end.

(** The string is empty or made of white space only. *)
Definition blank (s : t) : bool := forallb is_white_space s.

(** [String.prototype.startsWith] (position 0). *)
Fixpoint startsWith (s p : t) : bool :=
  match p, s with
  | [], _ => true
  | _ :: _, [] => false
  | a :: p', b :: s' => (a =? b)%N && startsWith s' p'
  end.

End JsString.

Abbreviation jsstring := JsString.t.
Notation "'js' s" := (JsString.lit s) (at level 9, s at level 9, only parsing).

(* ===================================================================== *)
(** ** Values held by the component *)
(* ===================================================================== *)

(** A [File] of the file picker or of a drop. *)
Record File := mkFile {
  file_name : jsstring;
  file_type : jsstring
}.

(** [response.data] of [POST /api/upload-ocr]. *)
Record OcrResult := mkOcrResult {
  id : jsstring;
  filename : jsstring;
  extracted_text : jsstring;
  confidence : float
}.

(** One entry of [textEdits], the object literal [newEdit]. *)
Record TextEdit := mkTextEdit {
  text : jsstring;
  x : float;
  y : float;
  font_size : float;
  font_color : jsstring
}.

(** The body of [POST /api/edit-image], the object literal [editRequest]. *)
Record EditRequest := mkEditRequest {
  file_id : jsstring;
  edits : list TextEdit
}.

(** The [useState] cells of [App], in declaration order. The two refs hold
    DOM nodes only and carry no state of their own. *)
Record State := mkState {
  selectedFile : option File;
  extractedText : jsstring;
  isLoading : bool;
  ocrResult : option OcrResult;
  imagePreview : option jsstring;
  textEdits : list TextEdit;
  isEditMode : bool;
  newText : jsstring;
  fontSize : float;
  fontColor : jsstring
}.

(** The initial values passed to [useState]. *)
Definition initialState : State :=
  {| selectedFile := None;
     extractedText := [];
     isLoading := false;
     ocrResult := None;
     imagePreview := None;
     textEdits := [];
     isEditMode := false;
     newText := [];
     fontSize := 24%float;
     fontColor := js "#000000" |}.

(** The state setters returned by [useState]: each replaces one cell. *)
Definition setSelectedFile (v : option File) (st : State) : State :=
  mkState v (extractedText st) (isLoading st) (ocrResult st)
    (imagePreview st) (textEdits st) (isEditMode st) (newText st)
    (fontSize st) (fontColor st).
Definition setExtractedText (v : jsstring) (st : State) : State :=
  mkState (selectedFile st) v (isLoading st) (ocrResult st)
    (imagePreview st) (textEdits st) (isEditMode st) (newText st)
    (fontSize st) (fontColor st).
Definition setIsLoading (v : bool) (st : State) : State :=
  mkState (selectedFile st) (extractedText st) v (ocrResult st)
    (imagePreview st) (textEdits st) (isEditMode st) (newText st)
    (fontSize st) (fontColor st).
Definition setOcrResult (v : option OcrResult) (st : State) : State :=
  mkState (selectedFile st) (extractedText st) (isLoading st) v
    (imagePreview st) (textEdits st) (isEditMode st) (newText st)
    (fontSize st) (fontColor st).
Definition setImagePreview (v : option jsstring) (st : State) : State :=
  mkState (selectedFile st) (extractedText st) (isLoading st) (ocrResult st)
    v (textEdits st) (isEditMode st) (newText st)
    (fontSize st) (fontColor st).
Definition setTextEdits (v : list TextEdit) (st : State) : State :=
  mkState (selectedFile st) (extractedText st) (isLoading st) (ocrResult st)
    (imagePreview st) v (isEditMode st) (newText st)
    (fontSize st) (fontColor st).
Definition setIsEditMode (v : bool) (st : State) : State :=
  mkState (selectedFile st) (extractedText st) (isLoading st) (ocrResult st)
    (imagePreview st) (textEdits st) v (newText st)
    (fontSize st) (fontColor st).
Definition setNewText (v : jsstring) (st : State) : State :=
  mkState (selectedFile st) (extractedText st) (isLoading st) (ocrResult st)
    (imagePreview st) (textEdits st) (isEditMode st) v
    (fontSize st) (fontColor st).
Definition setFontSize (v : float) (st : State) : State :=
  mkState (selectedFile st) (extractedText st) (isLoading st) (ocrResult st)
    (imagePreview st) (textEdits st) (isEditMode st) (newText st)
    v (fontColor st).
Definition setFontColor (v : jsstring) (st : State) : State :=
  mkState (selectedFile st) (extractedText st) (isLoading st) (ocrResult st)
    (imagePreview st) (textEdits st) (isEditMode st) (newText st)
    (fontSize st) v.

(** Handlers call their setters one after the other; [st |> f |> g] reads in
    the order of the source. *)
Notation "st |> f" := (f st) (at level 50, left associativity, only parsing).

(* ===================================================================== *)
(** ** JavaScript Numbers *)
(* ===================================================================== *)

Module Number.

(** The Number of a mathematical integer: the binary64 value nearest to it,
    ties to even. Exact for every integer of magnitude below [2^53]. *)
Definition ofZ (z : Z) : float :=
  SF2Prim (binary_normalize prec emax z 0 false).

(** [Math.round]: a Number that is not finite or is already integral is
    returned as it is; otherwise the integer nearest to it, the one closer
    to +infinity on a tie, and a zero of the argument's sign when that
    integer is 0. A finite [m * 2^e] with [0 <= e] is integral; with
    [e < 0] the nearest integer is [floor (m * 2^e + 1/2)]. *)
Definition round (v : float) : float :=
  match Prim2SF v with
  | S754_finite s m e =>
      if 0 <=? e then v
      else
        let k := (2 * cond_Zopp s (Zpos m) + 2 ^ (- e)) / 2 ^ (1 - e) in
        if k =? 0 then (if s then neg_zero else zero) else ofZ k
  | _ => v
  end.

(** The value of a digit of [parseInt] in the given radix (10 or 16). *)
Definition digit (radix : Z) (c : JsString.code_unit) : option Z :=
  let c := Z.of_N c in
  if (48 <=? c) && (c <=? 57) then Some (c - 48)
  else if (radix =? 16) && (97 <=? c) && (c <=? 102) then Some (c - 87)
  else if (radix =? 16) && (65 <=? c) && (c <=? 70) then Some (c - 55)
  else None.

(** The longest prefix of digits, read in the radix; [None] when there is
    no digit at all. *)
Fixpoint digits (radix : Z) (acc : option Z) (s : jsstring) : option Z :=
  match s with
  | [] => acc
  | c :: s' =>
      match digit radix c with
      | Some d =>
          digits radix
            (Some (radix * match acc with Some a => a | None => 0 end + d)) s'
      | None => acc
      end
  end.

(** [parseInt(string)] with no radix argument: leading white space is
    skipped, then an optional sign, then an optional [0x] or [0X] that
    selects radix 16, then the digits; [NaN] when there is none. *)
Definition parseInt (s : jsstring) : float :=
  let s := JsString.trimStart s in
  let '(neg, s) :=
    match s with
    | 45%N :: s' => (true, s')
    | 43%N :: s' => (false, s')
    | _ => (false, s)
    end in
  let '(radix, s) :=
    match s with
    | 48%N :: (120%N | 88%N) :: s' => (16, s')
    | _ => (10, s)
    end in
  match digits radix None s with
  | None => nan
  | Some 0 => if neg then neg_zero else zero
  | Some n => ofZ (if neg then - n else n)
  end.

(** [Number.isFinite]: neither [NaN] nor an infinity. *)
Definition isFinite (v : float) : bool :=
  match Prim2SF v with
  | S754_nan | S754_infinity _ => false
  | S754_zero _ | S754_finite _ _ _ => true
  end.

(** The rational a finite Number denotes, [(-1)^s * m * 2^e]; 0 for the
    Numbers that denote none. *)
Definition SFvalue (v : spec_float) : Q :=
  match v with
  | S754_finite s m e => (inject_Z (cond_Zopp s (Zpos m)) * 2 ^ e)%Q
  | _ => 0%Q
  end.

Definition value (v : float) : Q := SFvalue (Prim2SF v).

(** The decimal string of a non-negative integer, as the [value] of a
    numeric form control holds it. *)
Definition decimal (n : Z) : jsstring :=
  js (NilZero.string_of_uint (N.to_uint (Z.to_N n))).

End Number.

(* ===================================================================== *)
(** ** Binary64: the pieces of [SpecFloat]'s rounding *)
(* ===================================================================== *)

(** The number of low bits [shr_fexp] drops from a mantissa [m] with
    exponent [e]. *)
Definition shift_of (m e : Z) : Z :=
  Z.max 0 (fexp prec emax (Zdigits2 m + e) - e).

(** The last step of [binary_round_aux]: the float of a mantissa and an
    exponent, an infinity when the exponent is too large. *)
Definition pack (sx : bool) (m e : Z) : spec_float :=
  match m with
  | Z0 => S754_zero sx
  | Zpos p => if e <=? emax - prec then S754_finite sx p e else S754_infinity sx
  | Zneg _ => S754_nan
  end.

(** A zero or a positive finite Number. *)
Definition nonneg (v : spec_float) : bool :=
  match v with
  | S754_zero _ => true
  | S754_finite s _ _ => negb s
  | _ => false
  end.

(* ===================================================================== *)
(** ** The DOM objects the handlers read *)
(* ===================================================================== *)

(** [img.getBoundingClientRect()]: only [left] and [top] are read. *)
Record DOMRect := mkDOMRect {
  rect_left : float;
  rect_top : float
}.

(** The [<img>] of the preview. Its four dimension attributes are
    [unsigned long] in the DOM. *)
Record HTMLImageElement := mkImg {
  getBoundingClientRect : DOMRect;
  naturalWidth : Z;
  naturalHeight : Z;
  width : Z;
  height : Z
}.

(** The click on the preview. *)
Record MouseEvent := mkMouseEvent {
  target : HTMLImageElement;
  clientX : float;
  clientY : float
}.

(** The range of an [unsigned long]. *)
Definition ulong (z : Z) : Prop := 0 <= z < 2 ^ 32.

(* ===================================================================== *)
(** ** The handlers of [App] *)
(* ===================================================================== *)

(** [handleFileSelect]: [file] is [event.target.files[0]], [url] the string
    that [URL.createObjectURL(file)] returns. *)
Definition handleFileSelect (file : option File) (url : jsstring)
    (st : State) : State :=
  match file with
  | Some f =>
      st |> setSelectedFile (Some f)
         |> setImagePreview (Some url)
         |> setExtractedText []
         |> setOcrResult None
         |> setTextEdits []
         |> setIsEditMode false
  | None => st
  end.

(** [handleDrop]: [file] is [event.dataTransfer.files[0]]. *)
Definition handleDrop (file : option File) (url : jsstring)
    (st : State) : State :=
  match file with
  | Some f =>
      if JsString.startsWith (file_type f) (js "image/") then
        st |> setSelectedFile (Some f)
           |> setImagePreview (Some url)
           |> setExtractedText []
           |> setOcrResult None
           |> setTextEdits []
           |> setIsEditMode false
      else st
  | None => st
  end.

(** [handleUploadAndOCR], up to its [await]: the new state and the file
    posted to [/api/upload-ocr], if any. *)
Definition handleUploadAndOCR (st : State) : State * option File :=
  match selectedFile st with
  | None => (st, None)
  | Some f => (st |> setIsLoading true, Some f)
  end.

(** [handleUploadAndOCR] after its [await], when the request succeeded with
    [response.data = data]: the rest of the [try] block, then [finally]. *)
Definition handleUploadAndOCR_fulfilled (data : OcrResult)
    (st : State) : State :=
  st |> setOcrResult (Some data)
     |> setExtractedText (extracted_text data)
     |> setIsLoading false.

(** [handleUploadAndOCR] after its [await], when the request failed: the
    [catch] block (an alert), then [finally]. *)
Definition handleUploadAndOCR_rejected (st : State) : State :=
  st |> setIsLoading false.

Definition handleTextEdit (newText : jsstring) (st : State) : State :=
  st |> setExtractedText newText.

(** Lines 88 to 92 of [handleImageClick], the coordinate mapper: the click
    [(lx, ly)], relative to the corner of the displayed image, in the pixels
    of the original. The four dimensions are read from the [<img>]. *)
Definition mapClickToOriginal (lx ly : float)
    (displayedWidth displayedHeight naturalWidth naturalHeight : Z)
    : float * float :=
  let scaleX := (Number.ofZ naturalWidth / Number.ofZ displayedWidth)%float in
  let scaleY := (Number.ofZ naturalHeight / Number.ofZ displayedHeight)%float in
  let actualX := Number.round (lx * scaleX) in
  let actualY := Number.round (ly * scaleY) in
  (actualX, actualY).

(** The coordinates [handleImageClick] computes for a click. *)
Definition clickPosition (event : MouseEvent) : float * float :=
  let rect := getBoundingClientRect (target event) in
  let x := (clientX event - rect_left rect)%float in
  let y := (clientY event - rect_top rect)%float in
  let img := target event in
  mapClickToOriginal x y (width img) (height img)
    (naturalWidth img) (naturalHeight img).

Definition handleImageClick (event : MouseEvent) (st : State) : State :=
  if negb (isEditMode st) || negb (JsString.truthy (JsString.trim (newText st)))
  then st
  else
    let '(actualX, actualY) := clickPosition event in
    let newEdit :=
      {| text := newText st;
         x := actualX;
         y := actualY;
         font_size := fontSize st;
         font_color := fontColor st |} in
    st |> setTextEdits (textEdits st ++ [newEdit])
       |> setNewText [].

(** What [downloadEditedImage] does before its [await]: an alert, or the
    request posted to [/api/edit-image]. It sets no state. *)
Inductive Outcome :=
| Alert (message : jsstring)
| Post (request : EditRequest).

Definition downloadEditedImage (st : State) : Outcome :=
  match ocrResult st with
  | None => Alert (js "No edits to save")
  | Some r =>
      if (List.length (textEdits st) =? 0)%nat
      then Alert (js "No edits to save")
      else Post {| file_id := id r; edits := textEdits st |}
  end.

(** The name of the file saved when the request succeeds. *)
Definition downloadName (st : State) : option jsstring :=
  match downloadEditedImage st, ocrResult st with
  | Post _, Some r => Some (js "edited_" ++ filename r)%list
  | _, _ => None
  end.

Definition clearEdits (st : State) : State := st |> setTextEdits [].

(** The inline handlers of the form controls. *)
Definition onNewTextChange (value : jsstring) (st : State) : State :=
  st |> setNewText value.
Definition onFontSizeChange (value : jsstring) (st : State) : State :=
  st |> setFontSize (Number.parseInt value).
Definition onFontColorChange (value : jsstring) (st : State) : State :=
  st |> setFontColor value.
Definition onEditModeClick (st : State) : State :=
  st |> setIsEditMode (negb (isEditMode st)).

(* ===================================================================== *)
(** ** The component as a transition system *)
(* ===================================================================== *)

(** What the user and the network can do to the page. *)
Inductive Event :=
| FileChange (file : option File) (url : jsstring)
| DragOver
| Drop (file : option File) (url : jsstring)
| ExtractClick
| ExtractFulfilled (i : nat) (data : OcrResult)
| ExtractRejected (i : nat)
| TextAreaChange (value : jsstring)
| ImageClick (event : MouseEvent)
| NewTextChange (value : jsstring)
| FontSizeChange (n : Z)
| FontColorChange (value : jsstring)
| EditModeClick
| ClearClick
| DownloadClick.

(** The artifact the session holds: [ocrResult.id], when there is a result. *)
Definition artifact (st : State) : option jsstring :=
  option_map id (ocrResult st).

(** The page: the state of the component, the uploads whose response has not
    arrived yet, and, for the proofs only, the artifact each entry of
    [textEdits] was created under. *)
Record World := mkWorld {
  appState : State;
  pending : list File;
  origin : list (option jsstring)
}.

Definition initialWorld : World :=
  {| appState := initialState; pending := []; origin := [] |}.

(** Entries a handler keeps keep their origin; entries it appends get the
    artifact that was current when it ran. *)
Definition retrack (before after : State) (o : list (option jsstring))
    : list (option jsstring) :=
  let n := List.length (textEdits after) in
  firstn n o ++ repeat (artifact before) (n - List.length o).

(** The page after a handler has run. *)
Definition update (w : World) (st' : State) : World :=
  {| appState := st'; pending := pending w;
     origin := retrack (appState w) st' (origin w) |}.

Fixpoint remove_nth {A} (i : nat) (l : list A) : list A :=
  match i, l with
  | _, [] => []
  | O, _ :: l' => l'
  | S i', a :: l' => a :: remove_nth i' l'
  end.

(** The page after a request has been sent, and after the [i]-th pending
    request has settled. *)
Definition sent (posted : option File) (w : World) : World :=
  {| appState := appState w;
     pending := pending w ++ match posted with Some f => [f] | None => [] end;
     origin := origin w |}.

Definition settled (i : nat) (w : World) : World :=
  {| appState := appState w;
     pending := remove_nth i (pending w);
     origin := origin w |}.

Definition isSome {A} (o : option A) : bool :=
  match o with Some _ => true | None => false end.

(** The rendering conditions of the JSX: which control is on the page, and
    enabled, in a state. The file input and the drop zone always are. *)
Definition rendersExtractButton (st : State) : bool :=
  isSome (selectedFile st) && negb (isLoading st).
Definition rendersPreview (st : State) : bool :=
  match imagePreview st with
  | Some url => JsString.truthy url
  | None => false
  end.
Definition rendersTextArea (st : State) : bool :=
  JsString.truthy (extractedText st).
Definition rendersTools (st : State) : bool := isSome (ocrResult st).
Definition rendersEditButtons (st : State) : bool :=
  isSome (ocrResult st) && (0 <? List.length (textEdits st))%nat.

(** One event. [None] when the control is not on the page, or is disabled,
    or no request with that index is pending. The range control of the font
    size has [min="12"], [max="72"] and the default step 1: its [value] is
    the decimal string of an integer between 12 and 72. *)
Definition step (e : Event) (w : World) : option World :=
  let st := appState w in
  match e with
  | FileChange file url => Some (update w (handleFileSelect file url st))
  | DragOver => Some w
  | Drop file url => Some (update w (handleDrop file url st))
  | ExtractClick =>
      if rendersExtractButton st then
        Some (sent (snd (handleUploadAndOCR st))
                (update w (fst (handleUploadAndOCR st))))
      else None
  | ExtractFulfilled i data =>
      match nth_error (pending w) i with
      | Some _ =>
          Some (settled i (update w (handleUploadAndOCR_fulfilled data st)))
      | None => None
      end
  | ExtractRejected i =>
      match nth_error (pending w) i with
      | Some _ => Some (settled i (update w (handleUploadAndOCR_rejected st)))
      | None => None
      end
  | TextAreaChange value =>
      if rendersTextArea st then Some (update w (handleTextEdit value st))
      else None
  | ImageClick event =>
      if rendersPreview st then Some (update w (handleImageClick event st))
      else None
  | NewTextChange value =>
      if rendersTools st then Some (update w (onNewTextChange value st))
      else None
  | FontSizeChange n =>
      if rendersTools st && (12 <=? n) && (n <=? 72)
      then Some (update w (onFontSizeChange (Number.decimal n) st))
      else None
  | FontColorChange value =>
      if rendersTools st then Some (update w (onFontColorChange value st))
      else None
  | EditModeClick =>
      if rendersTools st then Some (update w (onEditModeClick st)) else None
  | ClearClick =>
      if rendersEditButtons st then Some (update w (clearEdits st)) else None
  | DownloadClick =>
      if rendersEditButtons st then Some w else None
  end.

(** A sequence of events from a page. *)
Fixpoint run (es : list Event) (w : World) : option World :=
  match es with
  | [] => Some w
  | e :: es' =>
      match step e w with
      | Some w' => run es' w'
      | None => None
      end
  end.

(** The pages a session can be in. *)
Inductive reachable : World -> Prop :=
| reachable_init : reachable initialWorld
| reachable_step e w w' :
    reachable w -> step e w = Some w' -> reachable w'.

(* ===================================================================== *)
(** ** Well-formed annotations *)
(* ===================================================================== *)

(** A font size the range control can hold: the Number of an integer
    between 12 and 72. *)
Definition sizeInRange (v : float) : Prop :=
  exists n : Z, 12 <= n <= 72 /\ v = Number.ofZ n.

(** An annotation as the data model wants it: a text that is not empty and
    a font size in range. *)
Definition wellFormed (e : TextEdit) : Prop :=
  text e <> [] /\ sizeInRange (font_size e).

(** The invariant of the store: the pending font size is in range, and so is
    every annotation of the sequence. *)
Definition storeInvariant (st : State) : Prop :=
  sizeInRange (fontSize st) /\ Forall wellFormed (textEdits st).

(* ===================================================================== *)
(** ** Invariants of a session *)
(* ===================================================================== *)

(** The pending uploads and the loading flag go together: nothing is
    pending and the flag is down, or one upload is pending and it is up. *)
Definition oneAtATime (w : World) : Prop :=
  (pending w = [] /\ isLoading (appState w) = false)
  \/ (exists f, pending w = [f] /\ isLoading (appState w) = true).

(** Without a result the page has no annotation and is not in edit mode. *)
Definition editsNeedResult (st : State) : Prop :=
  ocrResult st = None -> textEdits st = [] /\ isEditMode st = false.

(** The sections of the page build on one another: the preview goes with the
    selected file, an upload or a result needs a selected file, an extracted
    text needs a result. *)
Definition sectionsNest (w : World) : Prop :=
  isSome (imagePreview (appState w)) = isSome (selectedFile (appState w))
  /\ (selectedFile (appState w) = None ->
      pending w = [] /\ ocrResult (appState w) = None)
  /\ (ocrResult (appState w) = None -> extractedText (appState w) = []).

(* ===================================================================== *)
(** ** What the page shows, what a user does *)
(* ===================================================================== *)

(** The confidence shown beside the title of the text area (JSX, lines 234
    to 243): the card is rendered for a non-empty extracted text, the label
    inside it for a result; the Number shown is
    [Math.round(ocrResult.confidence)]. *)
Definition confidenceLabel (st : State) : option float :=
  if JsString.truthy (extractedText st) then
    match ocrResult st with
    | Some r => Some (Number.round (confidence r))
    | None => None
    end
  else None.

(** The arrival of a response to an upload. *)
Definition isResponse (e : Event) : bool :=
  match e with
  | ExtractFulfilled _ _ => true
  | _ => false
  end.

(** The events that empty the annotation sequence: the clear button, a file
    picked, an image file dropped. *)
Definition clearsEdits (e : Event) : bool :=
  match e with
  | ClearClick => true
  | FileChange (Some _) _ => true
  | Drop (Some f) _ => JsString.startsWith (file_type f) (js "image/")
  | _ => false
  end.

Definition isImageClick (e : Event) : bool :=
  match e with
  | ImageClick _ => true
  | _ => false
  end.

(** The annotation a click places in a state whose pending text is [s]. *)
Definition placed (st : State) (s : jsstring) (event : MouseEvent) : TextEdit :=
  {| text := s;
     x := fst (clickPosition event);
     y := snd (clickPosition event);
     font_size := fontSize st;
     font_color := fontColor st |}.

(** Typing a text into the text field, then clicking the image: once for
    each pair of the list. *)
Definition typeAndClick (ps : list (jsstring * MouseEvent)) : list Event :=
  flat_map (fun p => [NewTextChange (fst p); ImageClick (snd p)]) ps.

(* ===================================================================== *)
(** ** Sample sessions *)
(* ===================================================================== *)

Module Sample.

Definition fileA : File := mkFile (js "a.png") (js "image/png").
Definition fileB : File := mkFile (js "b.png") (js "image/png").
Definition urlA : jsstring := js "blob:a".
Definition urlB : jsstring := js "blob:b".

(** A response to an upload of [fileA], and one to an upload of [fileB]. *)
Definition resultA1 : OcrResult :=
  mkOcrResult (js "a1") (js "a.png") (js "HELLO") 93.5%float.
Definition resultB : OcrResult :=
  mkOcrResult (js "b1") (js "b.png") (js "WORLD") 88%float.

(** An image of 1200 x 1600 pixels displayed at 300 x 400, its corner at
    (10, 20) of the viewport, clicked at (60, 70): 50 pixels right of and
    below the corner. *)
Definition img : HTMLImageElement :=
  {| getBoundingClientRect := {| rect_left := 10; rect_top := 20 |};
     naturalWidth := 1200; naturalHeight := 1600;
     width := 300; height := 400 |}.
Definition click : MouseEvent :=
  {| target := img; clientX := 60; clientY := 70 |}.

(** The annotation that click places with the initial style. *)
Definition editHi : TextEdit :=
  {| text := js "Hi"; x := 200; y := 200;
     font_size := 24; font_color := js "#000000" |}.

(** Upload [fileA], extract, enter edit mode, type "Hi", click the image. *)
Definition annotate : list Event :=
  [ FileChange (Some fileA) urlA; ExtractClick; ExtractFulfilled 0 resultA1;
    EditModeClick; NewTextChange (js "Hi"); ImageClick click ].

(** Select [fileA], start its extraction, select [fileB] before the response
    arrives. *)
Definition reselect : list Event :=
  [ FileChange (Some fileA) urlA; ExtractClick; FileChange (Some fileB) urlB ].

(** ... then the response for [fileA] arrives; enter edit mode, type "Hi",
    click the image, and press the extract button, now for [fileB]. *)
Definition crossed : list Event :=
  reselect ++
  [ ExtractFulfilled 0 resultA1; EditModeClick; NewTextChange (js "Hi");
    ImageClick click; ExtractClick ].

(** Upload [fileA], extract, type "Hi" without placing it. *)
Definition typed : list Event :=
  [ FileChange (Some fileA) urlA; ExtractClick; ExtractFulfilled 0 resultA1;
    NewTextChange (js "Hi") ].

(** The page after [reselect], and the page after [annotate]. *)
Definition reselected : World :=
  Eval vm_compute in
    match run reselect initialWorld with Some w => w | None => initialWorld end.
Definition annotated : World :=
  Eval vm_compute in
    match run annotate initialWorld with Some w => w | None => initialWorld end.

(** Edit mode on and "Hi" typed, with the initial style. *)
Definition armed : State :=
  initialState |> setIsEditMode true |> setNewText (js "Hi").

(** Edit mode on and only white space typed. *)
Definition armedBlank : State :=
  initialState |> setIsEditMode true |> setNewText (js "  ").

(** A state with an annotation and no result, and one with a result and no
    annotation. *)
Definition noResult : State := initialState |> setTextEdits [editHi].
Definition noEdits : State := initialState |> setOcrResult (Some resultA1).

(** A state with the artifact [abc123] and two annotations. *)
Definition editBye : TextEdit :=
  {| text := js "Bye"; x := 10; y := 20;
     font_size := 36; font_color := js "#ff0000" |}.
Definition twoEdits : State :=
  initialState
  |> setOcrResult (Some (mkOcrResult (js "abc123") (js "a.png") [] 90%float))
  |> setTextEdits [editHi; editBye].

(** An image of 1200 x 900 pixels displayed at 400 x 300, its corner at
    (9.833333333333334, 20) of the viewport, clicked at (60, 70): the click
    is [nearTie] pixels right of the corner, a Number just below 50 + 1/6,
    so that three times it is just below 150.5. *)
Definition imgThird : HTMLImageElement :=
  {| getBoundingClientRect :=
       {| rect_left := 0x1.3aaaaaaaaaaabp+3; rect_top := 20 |};
     naturalWidth := 1200; naturalHeight := 900;
     width := 400; height := 300 |}.
Definition clickNearTie : MouseEvent :=
  {| target := imgThird; clientX := 60; clientY := 70 |}.
Definition nearTie : float :=
  (clientX clickNearTie - rect_left (getBoundingClientRect imgThird))%float.

(** [fileA] selected, nothing else done; then the extract button pressed. *)
Definition selected : World :=
  Eval vm_compute in
    match run [FileChange (Some fileA) urlA] initialWorld with
    | Some w => w
    | None => initialWorld
    end.
Definition extracting : World :=
  Eval vm_compute in
    match run [ExtractClick] selected with
    | Some w => w
    | None => initialWorld
    end.

(** A second click on the image, elsewhere. *)
Definition click2 : MouseEvent :=
  {| target := img; clientX := 110; clientY := 220 |}.

(** The annotated session, its extracted text then deleted in the text
    area. *)
Definition emptied : World :=
  Eval vm_compute in
    match run (annotate ++ [TextAreaChange []]) initialWorld with
    | Some w => w
    | None => initialWorld
    end.

(** [fileA] extracted and edit mode entered: ready for annotations. *)
Definition ready : World :=
  Eval vm_compute in
    match run [ FileChange (Some fileA) urlA; ExtractClick;
                ExtractFulfilled 0 resultA1; EditModeClick ]
              initialWorld with
    | Some w => w
    | None => initialWorld
    end.

(** After the annotated session: the text area edited, a second annotation
    placed, the image extracted again, edit mode left. *)
Definition later : list Event :=
  [ TextAreaChange (js "HELLO!"); NewTextChange (js "Bye");
    ImageClick click2; ExtractClick; ExtractFulfilled 0 resultB;
    EditModeClick ].

End Sample.

(* ===================================================================== *)
(** ** Strings: [trim] and blank strings *)
(* ===================================================================== *)

Module JsStringFacts.
Import JsString.

Lemma trimStart_nil_iff s : trimStart s = [] <-> blank s = true.
Proof.
  induction s as [|c s IH]; simpl.
  - tauto.
  - destruct (is_white_space c); simpl; [exact IH|].
    split; discriminate.
Qed.

Lemma blank_app s1 s2 : blank (s1 ++ s2) = blank s1 && blank s2.
Proof. apply forallb_app. Qed.

Lemma blank_rev s : blank (rev s) = blank s.
Proof.
  induction s as [|c s IH]; simpl; [reflexivity|].
  rewrite blank_app, IH. simpl. rewrite andb_true_r. apply andb_comm.
Qed.

(** What [trimStart] leaves has the same non-blank content. *)
Lemma blank_trimStart s : blank (trimStart s) = blank s.
Proof.
  induction s as [|c s IH]; simpl; [reflexivity|].
  destruct (is_white_space c) eqn:Hc; simpl; [exact IH|].
  now rewrite Hc.
Qed.

Lemma trim_nil_iff s : trim s = [] <-> blank s = true.
Proof.
  unfold trim, trimEnd.
  rewrite <- (blank_trimStart s), <- (blank_rev (trimStart s)).
  rewrite <- trimStart_nil_iff.
  split; intros H.
  - apply (f_equal (@rev _)) in H. now rewrite rev_involutive in H.
  - now rewrite H.
Qed.

(** The test [!newText.trim()] of [handleImageClick]. *)
Lemma truthy_trim s : truthy (trim s) = negb (blank s).
Proof.
  destruct (blank s) eqn:Hb.
  - apply trim_nil_iff in Hb. now rewrite Hb.
  - destruct (trim s) eqn:Ht; [|reflexivity].
    apply trim_nil_iff in Ht. congruence.
Qed.

(** A string that is not blank is not empty. *)
Lemma not_blank_not_nil s : blank s = false -> s <> [].
Proof. intros H ->. discriminate. Qed.

End JsStringFacts.

(* ===================================================================== *)
(** ** Reachability *)
(* ===================================================================== *)

Lemma run_reachable es : forall w w',
  reachable w -> run es w = Some w' -> reachable w'.
Proof.
  induction es as [|e es IH]; simpl; intros w w' Hw Hrun.
  - now inversion Hrun; subst.
  - destruct (step e w) as [w1|] eqn:Hstep; [|discriminate].
    eapply IH; [|exact Hrun]. eapply reachable_step; eassumption.
Qed.

Lemma run_from_init es w : run es initialWorld = Some w -> reachable w.
Proof. apply run_reachable, reachable_init. Qed.

(** Case analysis on one step: the guards of [step] are decided, and the
    page after the step is named by its definition. *)
Ltac step_inversion H :=
  simpl in H;
  repeat match type of H with
    | (if ?c then _ else _) = Some _ =>
        let E := fresh "Hguard" in destruct c eqn:E; [|discriminate H]
    | match ?o with Some _ => _ | None => None end = Some _ =>
        let E := fresh "Hpending" in destruct o eqn:E; [|discriminate H]
    end;
  inversion H; subst; clear H.

(** The guard of [handleImageClick], as a fact about its argument. *)
Lemma handleImageClick_refused event st :
  isEditMode st = false \/ JsString.blank (newText st) = true ->
  handleImageClick event st = st.
Proof.
  intros H. unfold handleImageClick.
  rewrite JsStringFacts.truthy_trim, negb_involutive.
  destruct H as [-> | ->]; [reflexivity|].
  now rewrite orb_true_r.
Qed.

Lemma handleImageClick_accepted event st :
  isEditMode st = true -> JsString.blank (newText st) = false ->
  handleImageClick event st =
  st |> setTextEdits
          (textEdits st ++
           [{| text := newText st;
               x := fst (clickPosition event);
               y := snd (clickPosition event);
               font_size := fontSize st;
               font_color := fontColor st |}])
     |> setNewText [].
Proof.
  intros Hm Hb. unfold handleImageClick.
  rewrite JsStringFacts.truthy_trim, negb_involutive, Hm, Hb. simpl.
  now destruct (clickPosition event).
Qed.

(* ===================================================================== *)
(** ** Loading a file, installing a result *)
(* ===================================================================== *)

(** What accepting a file does to each cell: [handleFileSelect] with a file. *)
Lemma handleFileSelect_cells f url st :
  handleFileSelect (Some f) url st =
  mkState (Some f) [] (isLoading st) None (Some url) [] false
    (newText st) (fontSize st) (fontColor st).
Proof. reflexivity. Qed.

(** What a response does to each cell. *)
Lemma handleUploadAndOCR_fulfilled_cells data st :
  handleUploadAndOCR_fulfilled data st =
  mkState (selectedFile st) (extracted_text data) false (Some data)
    (imagePreview st) (textEdits st) (isEditMode st)
    (newText st) (fontSize st) (fontColor st).
Proof. reflexivity. Qed.

(** C1, as the code has it: the annotation sequence is emptied, and the
    result cleared, by the operation that accepts a new file
    ([handleFileSelect]; [handleDrop] is the same operation for a file whose
    type starts with [image/] and does nothing for any other); the operation
    that installs a new result, the continuation of [handleUploadAndOCR],
    sets [ocrResult] and leaves the annotation sequence as it was. *)
Theorem edits_emptied_by_file_not_by_result :
  forall (f : File) (url : jsstring) (data : OcrResult) (st : State),
    textEdits (handleFileSelect (Some f) url st) = []
    /\ ocrResult (handleFileSelect (Some f) url st) = None
    /\ handleDrop (Some f) url st =
       (if JsString.startsWith (file_type f) (js "image/")
        then handleFileSelect (Some f) url st else st)
    /\ ocrResult (handleUploadAndOCR_fulfilled data st) = Some data
    /\ textEdits (handleUploadAndOCR_fulfilled data st) = textEdits st.
Proof.
  intros f url data st.
  split; [reflexivity|]. split; [reflexivity|]. split.
  - unfold handleDrop.
    now destruct (JsString.startsWith (file_type f) (js "image/")).
  - rewrite handleUploadAndOCR_fulfilled_cells. split; reflexivity.
Qed.

(** C1 as stated fails: an annotation is placed while the session holds the
    artifact [a1]; when the response that installs the artifact [b1] of
    another upload arrives, that annotation is still in the sequence. *)
Lemma new_result_keeps_old_edits :
  exists w w' : World,
    run Sample.crossed initialWorld = Some w
    /\ artifact (appState w) = Some (js "a1")
    /\ step (ExtractFulfilled 0 Sample.resultB) w = Some w'
    /\ artifact (appState w') = Some (js "b1")
    /\ textEdits (appState w') = [Sample.editHi]
    /\ origin w' = [Some (js "a1")].
Proof.
  eexists. eexists. split; [vm_compute; reflexivity|].
  repeat split.
Qed.

(** C2, as the code has it: accepting a new image file empties the
    annotation sequence and leaves edit mode; the pending text, the pending
    font size and the pending font colour are left as they were.
    [handleDrop] is [handleFileSelect] for a file whose type starts with
    [image/]. *)
Theorem file_load_keeps_pending_fields :
  forall (f : File) (url : jsstring) (st : State),
    textEdits (handleFileSelect (Some f) url st) = []
    /\ isEditMode (handleFileSelect (Some f) url st) = false
    /\ newText (handleFileSelect (Some f) url st) = newText st
    /\ fontSize (handleFileSelect (Some f) url st) = fontSize st
    /\ fontColor (handleFileSelect (Some f) url st) = fontColor st
    /\ handleDrop (Some f) url st =
       (if JsString.startsWith (file_type f) (js "image/")
        then handleFileSelect (Some f) url st else st).
Proof.
  intros f url st. rewrite handleFileSelect_cells. simpl.
  repeat (split; [reflexivity|]).
  unfold handleDrop.
  now destruct (JsString.startsWith (file_type f) (js "image/")).
Qed.

(** C2 as stated fails: a session that typed "Hi" and then picked another
    file still has "Hi" as its pending text. *)
Lemma file_load_keeps_typed_text :
  exists w w' : World,
    run Sample.typed initialWorld = Some w
    /\ step (FileChange (Some Sample.fileB) Sample.urlB) w = Some w'
    /\ newText (appState w') = js "Hi"
    /\ newText (appState w') <> [].
Proof.
  eexists. eexists. split; [vm_compute; reflexivity|].
  split; [vm_compute; reflexivity|].
  split; [reflexivity | discriminate].
Qed.

(** C3, as the code has it: the response of an upload is applied whenever it
    arrives. Whatever file is selected by then, [ocrResult] and
    [extractedText] become those of the response, the loading flag is
    lowered, and the selected file and the annotations stay as they are. No
    token is kept or compared. *)
Theorem response_applied_unconditionally :
  forall (w : World) (i : nat) (f : File) (data : OcrResult),
    nth_error (pending w) i = Some f ->
    exists w' : World,
      step (ExtractFulfilled i data) w = Some w'
      /\ ocrResult (appState w') = Some data
      /\ extractedText (appState w') = extracted_text data
      /\ isLoading (appState w') = false
      /\ selectedFile (appState w') = selectedFile (appState w)
      /\ textEdits (appState w') = textEdits (appState w)
      /\ pending w' = remove_nth i (pending w).
Proof.
  intros w i f data H. simpl. rewrite H. eexists. split; [reflexivity|].
  repeat split.
Qed.

(** C3 as stated fails: [fileA] is being extracted when [fileB] is selected;
    the response for [fileA] then arrives and becomes the result of the
    session, whose selected file is [fileB]. *)
Lemma stale_response_overwrites :
  exists w w' : World,
    run Sample.reselect initialWorld = Some w
    /\ nth_error (pending w) 0 = Some Sample.fileA
    /\ selectedFile (appState w) = Some Sample.fileB
    /\ ocrResult (appState w) = None
    /\ step (ExtractFulfilled 0 Sample.resultA1) w = Some w'
    /\ selectedFile (appState w') = Some Sample.fileB
    /\ ocrResult (appState w') = Some Sample.resultA1
    /\ extractedText (appState w') = js "HELLO".
Proof.
  eexists. eexists. split; [vm_compute; reflexivity|].
  repeat split.
Qed.

(** C3 at the sample session, where [fileA] is pending and [fileB] selected. *)
Lemma response_applied_unconditionally_sample :
  nth_error (pending Sample.reselected) 0 = Some Sample.fileA
  /\ exists w' : World,
      step (ExtractFulfilled 0 Sample.resultA1) Sample.reselected = Some w'
      /\ ocrResult (appState w') = Some Sample.resultA1
      /\ extractedText (appState w') = extracted_text Sample.resultA1
      /\ isLoading (appState w') = false
      /\ selectedFile (appState w') = selectedFile (appState Sample.reselected)
      /\ textEdits (appState w') = textEdits (appState Sample.reselected)
      /\ pending w' = remove_nth 0 (pending Sample.reselected).
Proof.
  split; [reflexivity|].
  exact (response_applied_unconditionally
           Sample.reselected 0 Sample.fileA Sample.resultA1 eq_refl).
Defined.

(* ===================================================================== *)
(** ** Placing an annotation *)
(* ===================================================================== *)

(** C4: with edit mode off, or with a pending text that is empty or white
    space only, a click on the image changes nothing: the state after
    [handleImageClick] is the state before, annotation sequence and pending
    fields included. *)
Theorem click_refused_changes_nothing :
  forall (event : MouseEvent) (st : State),
    isEditMode st = false \/ JsString.blank (newText st) = true ->
    handleImageClick event st = st
    /\ List.length (textEdits (handleImageClick event st))
       = List.length (textEdits st).
Proof.
  intros event st H.
  rewrite (handleImageClick_refused event st H). split; reflexivity.
Qed.

(** C4 at a state in edit mode whose pending text is two spaces. *)
Lemma click_refused_changes_nothing_sample :
  (isEditMode Sample.armedBlank = false
   \/ JsString.blank (newText Sample.armedBlank) = true)
  /\ handleImageClick Sample.click Sample.armedBlank = Sample.armedBlank
  /\ List.length (textEdits (handleImageClick Sample.click Sample.armedBlank))
     = List.length (textEdits Sample.armedBlank).
Proof.
  split; [right; reflexivity|].
  apply (click_refused_changes_nothing Sample.click Sample.armedBlank).
  right; reflexivity.
Defined.

(** C5: in edit mode, with a pending text that has a character other than
    white space, a click appends one annotation to the end of the sequence,
    made of the pending text, the mapped coordinates of the click, the
    pending font size and the pending font colour; the entries before it are
    the old sequence; the pending text becomes empty; font size and font
    colour, and every other cell, stay as they were. *)
Theorem click_appends_one_annotation :
  forall (event : MouseEvent) (st : State),
    isEditMode st = true ->
    JsString.blank (newText st) = false ->
    let st' := handleImageClick event st in
    textEdits st' =
      textEdits st ++
      [{| text := newText st;
          x := fst (clickPosition event);
          y := snd (clickPosition event);
          font_size := fontSize st;
          font_color := fontColor st |}]
    /\ List.length (textEdits st') = S (List.length (textEdits st))
    /\ firstn (List.length (textEdits st)) (textEdits st') = textEdits st
    /\ newText st' = []
    /\ fontSize st' = fontSize st
    /\ fontColor st' = fontColor st
    /\ st' |> setTextEdits (textEdits st) |> setNewText (newText st) = st.
Proof.
  intros event st Hm Hb st'. subst st'.
  rewrite (handleImageClick_accepted event st Hm Hb). simpl.
  split; [reflexivity|].
  split; [rewrite length_app; simpl; lia|].
  split.
  { rewrite firstn_app, Nat.sub_diag, firstn_all. simpl. apply app_nil_r. }
  repeat (split; [reflexivity|]).
  now destruct st.
Qed.

(** C5 at the scenario of the specification: font size 24, colour
    [#000000], edit mode on, pending text "Hi", one click. *)
Lemma click_appends_one_annotation_sample :
  isEditMode Sample.armed = true
  /\ JsString.blank (newText Sample.armed) = false
  /\ textEdits (handleImageClick Sample.click Sample.armed)
     = [] ++ [{| text := js "Hi";
                 x := fst (clickPosition Sample.click);
                 y := snd (clickPosition Sample.click);
                 font_size := 24%float;
                 font_color := js "#000000" |}]
  /\ newText (handleImageClick Sample.click Sample.armed) = [].
Proof.
  split; [reflexivity|]. split; [reflexivity|].
  pose proof (click_appends_one_annotation Sample.click Sample.armed
                eq_refl eq_refl) as H.
  split; [exact (proj1 H) | exact (proj1 (proj2 (proj2 (proj2 H))))].
Defined.

(* ===================================================================== *)
(** ** Building the render request *)
(* ===================================================================== *)

(** The request is built from [ocrResult] and [textEdits] alone. *)
Lemma downloadEditedImage_reads st st' :
  ocrResult st' = ocrResult st -> textEdits st' = textEdits st ->
  downloadEditedImage st' = downloadEditedImage st.
Proof. intros H1 H2. unfold downloadEditedImage. now rewrite H1, H2. Qed.

(** C6, as the code has it: [downloadEditedImage] refuses, with the one
    alert "No edits to save" whichever the cause, when the session holds no
    result or when the annotation sequence is empty; otherwise it posts
    [{file_id: ocrResult.id, edits: textEdits}], the annotations being the
    stored sequence itself, in its order. *)
Theorem request_refused_or_posted :
  forall st : State,
    (ocrResult st = None \/ textEdits st = [] ->
     downloadEditedImage st = Alert (js "No edits to save"))
    /\ (forall r : OcrResult,
          ocrResult st = Some r -> textEdits st <> [] ->
          downloadEditedImage st
          = Post {| file_id := id r; edits := textEdits st |}).
Proof.
  intros st. unfold downloadEditedImage. split.
  - intros [-> | ->]; [reflexivity|]. now destruct (ocrResult st).
  - intros r -> Hne. destruct (textEdits st); [congruence|reflexivity].
Qed.

(** C6 at the sample states, and at the scenario of the specification: the
    artifact [abc123] and two annotations give a request with both, the
    first before the second. *)
Lemma request_refused_or_posted_sample :
  downloadEditedImage Sample.noResult = Alert (js "No edits to save")
  /\ downloadEditedImage Sample.noEdits = Alert (js "No edits to save")
  /\ downloadEditedImage Sample.twoEdits
     = Post {| file_id := js "abc123";
               edits := [Sample.editHi; Sample.editBye] |}.
Proof.
  split; [|split].
  - apply (proj1 (request_refused_or_posted Sample.noResult)).
    left; reflexivity.
  - apply (proj1 (request_refused_or_posted Sample.noEdits)).
    right; reflexivity.
  - apply (proj2 (request_refused_or_posted Sample.twoEdits)
             (mkOcrResult (js "abc123") (js "a.png") [] 90%float));
      [reflexivity | discriminate].
Defined.

(** C6 as stated fails: a state with annotations and no result, and a state
    with a result and no annotation, are refused in the same way; whatever
    is read off what [downloadEditedImage] does, it is the same for the one
    cause and for the other. *)
Lemma refusal_does_not_tell_the_cause :
  ocrResult Sample.noResult = None
  /\ textEdits Sample.noResult <> []
  /\ ocrResult Sample.noEdits <> None
  /\ textEdits Sample.noEdits = []
  /\ downloadEditedImage Sample.noResult = downloadEditedImage Sample.noEdits
  /\ forall (E : Type) (classify : Outcome -> E),
       classify (downloadEditedImage Sample.noResult)
       = classify (downloadEditedImage Sample.noEdits).
Proof. repeat split; discriminate. Qed.

(** C10: the request does not depend on the extracted text. Two states
    that differ in [extractedText] only build the same request, or are
    refused alike; and editing the text area, which sets [extractedText]
    only, changes nothing of the request. *)
Theorem request_ignores_extracted_text :
  forall st1 st2 : State,
    st2 = (st1 |> setExtractedText (extractedText st2)) ->
    downloadEditedImage st1 = downloadEditedImage st2
    /\ forall s : jsstring,
         handleTextEdit s st1 = (st1 |> setExtractedText s)
         /\ downloadEditedImage (handleTextEdit s st1)
            = downloadEditedImage st1.
Proof.
  intros st1 st2 H. split.
  - rewrite H. symmetry. now apply downloadEditedImage_reads.
  - intros s. split; [reflexivity|]. now apply downloadEditedImage_reads.
Qed.

(** C10 at the annotated sample session, before and after its extracted
    text is replaced. *)
Lemma request_ignores_extracted_text_sample :
  downloadEditedImage (appState Sample.annotated)
  = downloadEditedImage
      (appState Sample.annotated |> setExtractedText (js "edited"))
  /\ downloadEditedImage (appState Sample.annotated)
     = Post {| file_id := js "a1"; edits := [Sample.editHi] |}.
Proof.
  split; [|reflexivity].
  exact (proj1 (request_ignores_extracted_text
                  (appState Sample.annotated)
                  (appState Sample.annotated |> setExtractedText (js "edited"))
                  eq_refl)).
Defined.

(* ===================================================================== *)
(** ** The annotations of a session are well formed *)
(* ===================================================================== *)

(** The range control hands [parseInt] the decimal string of an integer
    between 12 and 72, and gets that integer back. *)
Lemma parseInt_decimal n :
  12 <= n <= 72 -> Number.parseInt (Number.decimal n) = Number.ofZ n.
Proof.
  intros H.
  assert (Hk : exists k : nat, (k <= 60)%nat /\ n = 12 + Z.of_nat k).
  { exists (Z.to_nat (n - 12)). lia. }
  destruct Hk as (k & Hk & ->). clear H.
  do 61 (destruct k as [|k]; [vm_compute; reflexivity|]).
  lia.
Qed.

Lemma storeInvariant_initial : storeInvariant initialState.
Proof.
  split; [|constructor].
  exists 24. split; [lia | vm_compute; reflexivity].
Qed.

(** A handler that leaves the font size and the annotations alone keeps the
    invariant. *)
Lemma storeInvariant_frame st st' :
  fontSize st' = fontSize st -> textEdits st' = textEdits st ->
  storeInvariant st -> storeInvariant st'.
Proof. unfold storeInvariant. now intros -> ->. Qed.

Lemma storeInvariant_emptied st st' :
  fontSize st' = fontSize st -> textEdits st' = [] ->
  storeInvariant st -> storeInvariant st'.
Proof.
  unfold storeInvariant. intros -> -> [H _]. split; [exact H|constructor].
Qed.

Lemma storeInvariant_handleFileSelect file url st :
  storeInvariant st -> storeInvariant (handleFileSelect file url st).
Proof.
  destruct file as [f|]; [|trivial].
  now apply storeInvariant_emptied.
Qed.

Lemma storeInvariant_handleDrop file url st :
  storeInvariant st -> storeInvariant (handleDrop file url st).
Proof.
  destruct file as [f|]; [|trivial]. unfold handleDrop.
  destruct (JsString.startsWith (file_type f) (js "image/")); [|trivial].
  now apply storeInvariant_emptied.
Qed.

(** The one handler that creates an annotation: it does so only from a
    pending text that is not blank, with the pending font size. *)
Lemma storeInvariant_handleImageClick event st :
  storeInvariant st -> storeInvariant (handleImageClick event st).
Proof.
  intros [Hsize Hall].
  destruct (isEditMode st) eqn:Hm.
  2:{ rewrite handleImageClick_refused by now left. now split. }
  destruct (JsString.blank (newText st)) eqn:Hb.
  { rewrite handleImageClick_refused by now right. now split. }
  rewrite (handleImageClick_accepted event st Hm Hb).
  split; [exact Hsize|]. simpl.
  apply Forall_app. split; [exact Hall|].
  constructor; [|constructor].
  split; simpl; [now apply JsStringFacts.not_blank_not_nil | exact Hsize].
Qed.

Lemma handleUploadAndOCR_cells st :
  fst (handleUploadAndOCR st) = st
  \/ fst (handleUploadAndOCR st) = (st |> setIsLoading true).
Proof. unfold handleUploadAndOCR. destruct (selectedFile st); auto. Qed.

Lemma storeInvariant_step e w w' :
  step e w = Some w' ->
  storeInvariant (appState w) -> storeInvariant (appState w').
Proof.
  intros Hstep Hinv. destruct e; step_inversion Hstep; simpl; try exact Hinv;
    try (now apply (storeInvariant_frame (appState w))).
  - now apply storeInvariant_handleFileSelect.
  - now apply storeInvariant_handleDrop.
  - destruct (handleUploadAndOCR_cells (appState w)) as [-> | ->];
      [exact Hinv | now apply (storeInvariant_frame (appState w))].
  - now apply storeInvariant_handleImageClick.
  - (* the range control holds an integer between 12 and 72 *)
    apply andb_prop in Hguard. destruct Hguard as [Hguard Hle].
    apply andb_prop in Hguard. destruct Hguard as [_ Hge].
    destruct Hinv as [_ Hall]. split; [|exact Hall]. simpl.
    exists n. split; [lia|]. apply parseInt_decimal. lia.
  - now apply (storeInvariant_emptied (appState w)).
Qed.

(** C9: in every state a session can reach, no annotation of the sequence
    has an empty text, and the font size of each is the Number of an integer
    between 12 and 72. *)
Theorem annotations_well_formed :
  forall w : World,
    reachable w ->
    forall e : TextEdit,
      In e (textEdits (appState w)) ->
      text e <> []
      /\ exists n : Z, 12 <= n <= 72 /\ font_size e = Number.ofZ n.
Proof.
  intros w Hw.
  assert (Hinv : storeInvariant (appState w)).
  { induction Hw as [|e0 w0 w1 Hw0 IH Hstep].
    - exact storeInvariant_initial.
    - exact (storeInvariant_step e0 w0 w1 Hstep IH). }
  intros e He. destruct Hinv as [_ Hall].
  rewrite Forall_forall in Hall. exact (Hall e He).
Qed.

(** C9 at the sample session, for the annotation it placed. *)
Lemma annotations_well_formed_sample :
  reachable Sample.annotated
  /\ In Sample.editHi (textEdits (appState Sample.annotated))
  /\ text Sample.editHi <> []
  /\ exists n : Z, 12 <= n <= 72 /\ font_size Sample.editHi = Number.ofZ n.
Proof.
  assert (Hr : reachable Sample.annotated).
  { apply (run_from_init Sample.annotate). vm_compute. reflexivity. }
  assert (Hin : In Sample.editHi (textEdits (appState Sample.annotated))).
  { left. reflexivity. }
  split; [exact Hr|]. split; [exact Hin|].
  exact (annotations_well_formed Sample.annotated Hr Sample.editHi Hin).
Defined.

(* ===================================================================== *)
(** ** One extraction at a time, no annotation without a result *)
(* ===================================================================== *)

Lemma handleFileSelect_isLoading file url st :
  isLoading (handleFileSelect file url st) = isLoading st.
Proof. now destruct file. Qed.

Lemma handleDrop_isLoading file url st :
  isLoading (handleDrop file url st) = isLoading st.
Proof.
  destruct file as [f|]; [|reflexivity]. unfold handleDrop.
  now destruct (JsString.startsWith (file_type f) (js "image/")).
Qed.

Lemma handleImageClick_isLoading event st :
  isLoading (handleImageClick event st) = isLoading st.
Proof.
  unfold handleImageClick.
  destruct (negb (isEditMode st)
            || negb (JsString.truthy (JsString.trim (newText st))));
    [reflexivity|].
  now destruct (clickPosition event).
Qed.

Lemma oneAtATime_frame w st' :
  isLoading st' = isLoading (appState w) ->
  oneAtATime w -> oneAtATime (update w st').
Proof. unfold oneAtATime. simpl. now intros ->. Qed.

Lemma oneAtATime_step e w w' :
  step e w = Some w' -> oneAtATime w -> oneAtATime w'.
Proof.
  intros Hstep Hinv. destruct e; step_inversion Hstep;
    try (apply oneAtATime_frame; [|exact Hinv];
         first [ apply handleFileSelect_isLoading
               | apply handleDrop_isLoading
               | apply handleImageClick_isLoading
               | reflexivity ]);
    try exact Hinv.
  - (* the extract button *)
    unfold rendersExtractButton in Hguard.
    apply andb_prop in Hguard. destruct Hguard as [Hsel Hload].
    apply negb_true_iff in Hload.
    destruct Hinv as [[Hp _]|(f & _ & Hl)]; [|congruence].
    unfold oneAtATime, handleUploadAndOCR. simpl.
    destruct (selectedFile (appState w)) as [f|]; [|discriminate].
    right. exists f. simpl. now rewrite Hp.
  - (* a response *)
    left. simpl. destruct Hinv as [[Hp _]|(g & Hp & _)]; rewrite Hp in *.
    + destruct i; discriminate.
    + destruct i as [|[|i]]; simpl in *; try discriminate. now split.
  - (* a failure *)
    left. simpl. destruct Hinv as [[Hp _]|(g & Hp & _)]; rewrite Hp in *.
    + destruct i; discriminate.
    + destruct i as [|[|i]]; simpl in *; try discriminate. now split.
Qed.

(** X1: one extraction at a time. In every state a session can reach at
    most one upload is awaiting its response, and the loading flag is up
    exactly while one is: the extract button, disabled while the flag is
    up, never starts a second request. *)
Lemma single_extraction_in_flight w :
  reachable w ->
  (List.length (pending w) <= 1)%nat
  /\ (isLoading (appState w) = true <-> pending w <> []).
Proof.
  intros Hw.
  assert (H : oneAtATime w).
  { induction Hw as [|e w0 w1 _ IH Hstep].
    - now left.
    - exact (oneAtATime_step e w0 w1 Hstep IH). }
  destruct H as [[-> ->]|(f & -> & ->)]; simpl.
  - split; [lia|]. split; [discriminate|congruence].
  - split; [lia|]. split; [discriminate|reflexivity].
Qed.

Lemma handleImageClick_ocrResult event st :
  ocrResult (handleImageClick event st) = ocrResult st.
Proof.
  unfold handleImageClick.
  destruct (negb (isEditMode st)
            || negb (JsString.truthy (JsString.trim (newText st))));
    [reflexivity|].
  now destruct (clickPosition event).
Qed.

Lemma editsNeedResult_step e w w' :
  step e w = Some w' ->
  editsNeedResult (appState w) -> editsNeedResult (appState w').
Proof.
  unfold editsNeedResult.
  intros Hstep Hinv. destruct e; step_inversion Hstep; simpl.
  - (* a file is picked *)
    destruct file; simpl; [now split|exact Hinv].
  - exact Hinv.
  - (* a file is dropped *)
    destruct file as [f|]; [|exact Hinv]. unfold handleDrop.
    destruct (JsString.startsWith (file_type f) (js "image/"));
      simpl; [now split|exact Hinv].
  - destruct (handleUploadAndOCR_cells (appState w)) as [-> | ->]; exact Hinv.
  - discriminate.
  - exact Hinv.
  - exact Hinv.
  - (* a click on the image is refused outside edit mode *)
    rewrite handleImageClick_ocrResult. intros Hnone.
    destruct (Hinv Hnone) as [He Hm].
    rewrite handleImageClick_refused by now left. now split.
  - exact Hinv.
  - exact Hinv.
  - exact Hinv.
  - (* the edit mode button is shown with a result only *)
    intros Hnone. unfold rendersTools in Hguard. now rewrite Hnone in Hguard.
  - intros Hnone. unfold rendersEditButtons in Hguard.
    now rewrite Hnone in Hguard.
  - exact Hinv.
Qed.

Lemma edits_need_result w :
  reachable w ->
  ocrResult (appState w) = None ->
  textEdits (appState w) = [] /\ isEditMode (appState w) = false.
Proof.
  intros Hw. induction Hw as [|e w0 w1 _ IH Hstep].
  - now split.
  - exact (editsNeedResult_step e w0 w1 Hstep IH).
Qed.

(** The download button, when it is on the page, posts a request. *)
Lemma download_button_posts w w' :
  step DownloadClick w = Some w' ->
  exists r, ocrResult (appState w) = Some r
            /\ downloadEditedImage (appState w)
               = Post {| file_id := id r; edits := textEdits (appState w) |}.
Proof.
  intros Hstep. step_inversion Hstep.
  unfold rendersEditButtons in Hguard. unfold downloadEditedImage.
  destruct (ocrResult (appState w')) as [r|]; [|discriminate].
  exists r. split; [reflexivity|]. simpl in Hguard.
  destruct (textEdits (appState w')); [discriminate|reflexivity].
Qed.

(** The origins recorded for the proofs are one per annotation. *)
Lemma retrack_length before after o :
  List.length o = List.length (textEdits before) ->
  (List.length (textEdits after) <= S (List.length (textEdits before)))%nat ->
  List.length (retrack before after o) = List.length (textEdits after).
Proof.
  intros Ho Hle. unfold retrack.
  rewrite length_app, length_firstn, repeat_length. lia.
Qed.

(** [clearEdits] empties the sequence whatever it held, twice as once, and
    the request is refused afterwards. *)
Lemma clearEdits_then_refused st :
  textEdits (clearEdits st) = []
  /\ clearEdits (clearEdits st) = clearEdits st
  /\ downloadEditedImage (clearEdits st) = Alert (js "No edits to save").
Proof.
  repeat split. unfold downloadEditedImage. simpl.
  now destruct (ocrResult st).
Qed.

(** The edit mode button flips the mode and nothing else. *)
Lemma onEditModeClick_cells st :
  isEditMode (onEditModeClick st) = negb (isEditMode st)
  /\ (onEditModeClick st |> setIsEditMode (isEditMode st)) = st.
Proof. split; [reflexivity|]. now destruct st. Qed.

Lemma handleImageClick_length event st :
  (List.length (textEdits (handleImageClick event st))
   <= S (List.length (textEdits st)))%nat.
Proof.
  destruct (isEditMode st) eqn:Hm.
  2:{ rewrite handleImageClick_refused by now left. lia. }
  destruct (JsString.blank (newText st)) eqn:Hb.
  { rewrite handleImageClick_refused by now right. lia. }
  rewrite (handleImageClick_accepted event st Hm Hb). simpl.
  rewrite length_app. simpl. lia.
Qed.

Lemma origin_step e w w' :
  step e w = Some w' ->
  List.length (origin w) = List.length (textEdits (appState w)) ->
  List.length (origin w') = List.length (textEdits (appState w')).
Proof.
  intros Hstep Hinv.
  destruct e; step_inversion Hstep; cbn [appState origin update sent settled];
    try exact Hinv;
    try (apply retrack_length; [exact Hinv|]; simpl; lia).
  - apply retrack_length; [exact Hinv|]. destruct file; simpl; lia.
  - apply retrack_length; [exact Hinv|].
    destruct file as [f|]; [|simpl; lia]. unfold handleDrop.
    destruct (JsString.startsWith (file_type f) (js "image/")); simpl; lia.
  - apply retrack_length; [exact Hinv|].
    destruct (handleUploadAndOCR_cells (appState w)) as [-> | ->]; simpl; lia.
  - apply retrack_length; [exact Hinv|]. apply handleImageClick_length.
Qed.

Lemma origin_tracks_edits w :
  reachable w ->
  List.length (origin w) = List.length (textEdits (appState w)).
Proof.
  intros Hw. induction Hw as [|e w0 w1 _ IH Hstep].
  - reflexivity.
  - exact (origin_step e w0 w1 Hstep IH).
Qed.

(* ===================================================================== *)
(** ** Binary64: mantissas and their digits *)
(* ===================================================================== *)

(** A mantissa of [d] binary digits lies between [2^(d-1)] and [2^d]. *)
Lemma digits2_bounds p :
  2 ^ (Zpos (digits2_pos p) - 1) <= Zpos p < 2 ^ Zpos (digits2_pos p).
Proof.
  induction p as [p IH|p IH|]; simpl digits2_pos.
  - rewrite Pos2Z.inj_succ.
    replace (Z.succ (Zpos (digits2_pos p)) - 1)
      with (Z.succ (Zpos (digits2_pos p) - 1)) by lia.
    rewrite !Z.pow_succ_r by lia. lia.
  - rewrite Pos2Z.inj_succ.
    replace (Z.succ (Zpos (digits2_pos p)) - 1)
      with (Z.succ (Zpos (digits2_pos p) - 1)) by lia.
    rewrite !Z.pow_succ_r by lia. lia.
  - simpl. lia.
Qed.

(** ... and the bounds determine the number of digits. *)
Lemma digits2_unique p d :
  2 ^ (d - 1) <= Zpos p < 2 ^ d -> Zpos (digits2_pos p) = d.
Proof.
  intros [H1 H2]. pose proof (digits2_bounds p) as [H3 H4].
  assert (0 < d).
  { destruct (Z.lt_trichotomy d 0) as [Hn|[Hz|Hp]];
      [|subst; simpl in H2; lia|exact Hp].
    rewrite (Z.pow_neg_r 2 d Hn) in H2. lia. }
  set (dp := Zpos (digits2_pos p)) in *.
  destruct (Z.lt_trichotomy dp d) as [Hlt|[Heq|Hgt]]; [|exact Heq|].
  - assert (2 ^ dp <= 2 ^ (d - 1)) by (apply Z.pow_le_mono_r; lia). lia.
  - assert (2 ^ d <= 2 ^ (dp - 1)) by (apply Z.pow_le_mono_r; lia). lia.
Qed.

Lemma iter_xO m n : Zpos (Pos.iter xO m n) = Zpos m * 2 ^ Zpos n.
Proof.
  induction n as [|n IH] using Pos.peano_ind.
  - simpl. lia.
  - rewrite Pos.iter_succ, Pos2Z.inj_xO, IH, Pos2Z.inj_succ.
    rewrite Z.pow_succ_r by lia. ring.
Qed.

Lemma digits2_iter_xO m n :
  Zpos (digits2_pos (Pos.iter xO m n)) = Zpos (digits2_pos m) + Zpos n.
Proof.
  apply digits2_unique. rewrite iter_xO.
  pose proof (digits2_bounds m) as [H1 H2].
  replace (Zpos (digits2_pos m) + Zpos n - 1)
    with ((Zpos (digits2_pos m) - 1) + Zpos n) by lia.
  rewrite !Z.pow_add_r by lia.
  assert (0 < 2 ^ Zpos n) by (apply Z.pow_pos_nonneg; lia).
  nia.
Qed.

(* ===================================================================== *)
(** ** Binary64: what [binary_round_aux] returns *)
(* ===================================================================== *)

Lemma shr_1_m mrs : 0 <= shr_m mrs -> shr_m (shr_1 mrs) = shr_m mrs / 2.
Proof.
  destruct mrs as [m r s]. simpl. intros Hm.
  destruct m as [|p|p]; [reflexivity| |lia].
  destruct p as [p|p|]; simpl shr_m.
  - rewrite Pos2Z.inj_xI. apply Z.div_unique with 1; lia.
  - rewrite Pos2Z.inj_xO. apply Z.div_unique with 0; lia.
  - reflexivity.
Qed.

Lemma iter_shr_1_m n : forall mrs,
  0 <= shr_m mrs ->
  shr_m (iter_pos shr_1 n mrs) = shr_m mrs / 2 ^ Zpos n.
Proof.
  assert (Hnn : forall mrs, 0 <= shr_m mrs -> 0 <= shr_m (shr_1 mrs)).
  { intros mrs H. rewrite shr_1_m by exact H. apply Z.div_pos; lia. }
  induction n as [n IH|n IH|]; intros mrs Hm; simpl iter_pos.
  - assert (H1 := Hnn mrs Hm).
    assert (H2 : 0 <= shr_m (iter_pos shr_1 n (shr_1 mrs))).
    { rewrite IH by exact H1. apply Z.div_pos; [exact H1|].
      apply Z.pow_pos_nonneg; lia. }
    rewrite IH by exact H2. rewrite IH by exact H1. rewrite shr_1_m by exact Hm.
    rewrite !Z.div_div by (try apply Z.pow_pos_nonneg; lia).
    f_equal. rewrite Pos2Z.inj_xI.
    replace (2 * Zpos n + 1) with (Z.succ (Zpos n + Zpos n)) by lia.
    rewrite Z.pow_succ_r, Z.pow_add_r by lia. ring.
  - assert (H2 : 0 <= shr_m (iter_pos shr_1 n mrs)).
    { rewrite IH by exact Hm. apply Z.div_pos; [exact Hm|].
      apply Z.pow_pos_nonneg; lia. }
    rewrite IH by exact H2. rewrite IH by exact Hm.
    rewrite !Z.div_div by (try apply Z.pow_pos_nonneg; lia).
    f_equal. rewrite <- Z.pow_add_r by lia. f_equal. lia.
  - rewrite shr_1_m by exact Hm. reflexivity.
Qed.

Lemma shr_record_of_loc_m m l : shr_m (shr_record_of_loc m l) = m.
Proof. destruct l as [|[]]; reflexivity. Qed.

Lemma shr_fexp_spec m e l :
  0 <= m ->
  shr_m (fst (shr_fexp prec emax m e l)) = m / 2 ^ shift_of m e
  /\ snd (shr_fexp prec emax m e l) = e + shift_of m e
  /\ (shift_of m e = 0 ->
      fst (shr_fexp prec emax m e l) = shr_record_of_loc m l).
Proof.
  intros Hm. unfold shr_fexp, shift_of, shr.
  destruct (fexp prec emax (Zdigits2 m + e) - e) as [|n|n] eqn:Hn;
    simpl fst; simpl snd.
  - rewrite shr_record_of_loc_m, Z.div_1_r. repeat split. lia.
  - rewrite iter_shr_1_m by (rewrite shr_record_of_loc_m; exact Hm).
    rewrite shr_record_of_loc_m. repeat split; lia.
  - rewrite shr_record_of_loc_m. simpl Z.max. rewrite Z.div_1_r.
    repeat split. lia.
Qed.

Lemma round_nearest_even_bounds m l :
  m <= round_nearest_even m l <= m + 1.
Proof.
  destruct l as [|[]]; simpl; try lia. destruct (Z.even m); lia.
Qed.

(** What [binary_round_aux] returns on a positive mantissa. *)
Lemma binary_round_aux_spec sx p ex lx :
  let n1 := shift_of (Zpos p) ex in
  let m1 := Zpos p / 2 ^ n1 in
  let e1 := ex + n1 in
  exists mr : Z,
    m1 <= mr <= m1 + 1
    /\ (n1 = 0 -> lx = loc_Exact -> mr = m1)
    /\ binary_round_aux prec emax sx (Zpos p) ex lx =
       pack sx (mr / 2 ^ shift_of mr e1) (e1 + shift_of mr e1).
Proof.
  intros n1 m1 e1. unfold binary_round_aux.
  destruct (shr_fexp_spec (Zpos p) ex lx) as (Hm1 & He1 & Hrec); [lia|].
  destruct (shr_fexp prec emax (Zpos p) ex lx) as [mrs' e'] eqn:Hs.
  simpl fst in *. simpl snd in *.
  set (mr := round_nearest_even (shr_m mrs') (loc_of_shr_record mrs')).
  exists mr.
  assert (Hb : m1 <= mr <= m1 + 1).
  { unfold mr, m1, n1. rewrite <- Hm1. apply round_nearest_even_bounds. }
  split; [exact Hb|]. split.
  { intros Hn -> . unfold mr. rewrite (Hrec Hn). simpl.
    unfold m1. fold n1 in Hm1. rewrite <- Hm1, (Hrec Hn). reflexivity. }
  assert (Hmr : 0 <= mr).
  { assert (0 <= m1); [|lia]. apply Z.div_pos; [lia|].
    apply Z.pow_pos_nonneg; [lia|].
    unfold n1, shift_of. lia. }
  destruct (shr_fexp_spec mr e' loc_Exact Hmr) as (Hm2 & He2 & _).
  destruct (shr_fexp prec emax mr e' loc_Exact) as [mrs'' e''] eqn:Hs2.
  simpl fst in *. simpl snd in *.
  subst e'. fold n1 in He2. fold e1 in He2, Hm2. rewrite Hm2, He2. reflexivity.
Qed.

(** Powers of two as rationals. *)
Lemma pow2_pos e : (0 < 2 ^ e)%Q.
Proof. apply Qpower_0_lt. reflexivity. Qed.

Lemma pow2_add a b : (2 ^ (a + b) == 2 ^ a * 2 ^ b)%Q.
Proof. apply Qpower_plus. discriminate. Qed.

Lemma pow2_le a b : a <= b -> (2 ^ a <= 2 ^ b)%Q.
Proof. intros H. apply Qpower_le_compat_l; [exact H|]. discriminate. Qed.

Lemma pow2_inject n : 0 <= n -> (inject_Z (2 ^ n) == 2 ^ n)%Q.
Proof. intros H. apply (Zpower_Qpower 2 n H). Qed.

(** Dropping [n] low bits of a mantissa does not raise the value. *)
Lemma floor_scale a n e :
  0 <= a -> 0 <= n ->
  (inject_Z (a / 2 ^ n) * 2 ^ (e + n) <= inject_Z a * 2 ^ e)%Q.
Proof.
  intros Ha Hn.
  assert (Hp : 0 < 2 ^ n) by (apply Z.pow_pos_nonneg; lia).
  assert (Hz : a / 2 ^ n * 2 ^ n <= a).
  { rewrite Z.mul_comm. apply Z.mul_div_le. exact Hp. }
  rewrite Zle_Qle, inject_Z_mult, pow2_inject in Hz by exact Hn.
  rewrite pow2_add.
  pose proof (pow2_pos e) as He.
  setoid_replace (inject_Z (a / 2 ^ n) * (2 ^ e * 2 ^ n))%Q
    with ((inject_Z (a / 2 ^ n) * 2 ^ n) * 2 ^ e)%Q by ring.
  apply Qmult_le_compat_r; [exact Hz | apply Qlt_le_weak, He].
Qed.

Lemma shift_of_nonneg m e : 0 <= shift_of m e.
Proof. unfold shift_of. lia. Qed.

Lemma pack_value_le m e :
  0 <= m -> (Number.SFvalue (pack false m e) <= inject_Z m * 2 ^ e)%Q.
Proof.
  intros Hm. pose proof (pow2_pos e) as Hp.
  unfold pack. destruct m as [|m|m].
  - simpl. rewrite Qmult_0_l. apply Qle_refl.
  - destruct (e <=? emax - prec); simpl.
    + apply Qle_refl.
    + apply Qmult_le_0_compat; [|apply Qlt_le_weak, Hp].
      rewrite <- (Zle_Qle 0). lia.
  - lia.
Qed.

(** The value [binary_round_aux] returns is at most the value of the
    truncated mantissa plus one unit of the exponent it settles on. *)
Lemma binary_round_aux_upper p ex lx :
  (Number.SFvalue (binary_round_aux prec emax false (Zpos p) ex lx)
   <= inject_Z (Zpos p) * 2 ^ ex + 2 ^ (ex + shift_of (Zpos p) ex))%Q.
Proof.
  destruct (binary_round_aux_spec false p ex lx) as (mr & Hmr & _ & ->).
  set (n1 := shift_of (Zpos p) ex) in *.
  set (e1 := ex + n1) in *.
  set (n2 := shift_of mr e1).
  assert (Hn1 : 0 <= n1) by apply shift_of_nonneg.
  assert (Hn2 : 0 <= n2) by apply shift_of_nonneg.
  assert (Hm1 : 0 <= Zpos p / 2 ^ n1).
  { apply Z.div_pos; [lia|]. apply Z.pow_pos_nonneg; lia. }
  assert (Hmr0 : 0 <= mr) by lia.
  assert (Hq : 0 <= mr / 2 ^ n2).
  { apply Z.div_pos; [lia|]. apply Z.pow_pos_nonneg; lia. }
  assert (H1 := pack_value_le (mr / 2 ^ n2) (e1 + n2) Hq).
  eapply Qle_trans; [exact H1|].
  eapply Qle_trans; [apply floor_scale; assumption|].
  (* mr <= m1 + 1 *)
  assert (H2 : (inject_Z mr <= inject_Z (Zpos p / 2 ^ n1) + 1)%Q).
  { change 1%Q with (inject_Z 1). rewrite <- inject_Z_plus, <- Zle_Qle. lia. }
  pose proof (floor_scale (Zpos p) n1 ex ltac:(lia) Hn1) as H3. fold e1 in H3.
  pose proof (pow2_pos e1) as Hp1.
  assert (H4 : (inject_Z mr * 2 ^ e1
                <= (inject_Z (Zpos p / 2 ^ n1) + 1) * 2 ^ e1)%Q).
  { apply Qmult_le_compat_r; [exact H2 | apply Qlt_le_weak, Hp1]. }
  eapply Qle_trans; [exact H4|].
  setoid_replace ((inject_Z (Zpos p / 2 ^ n1) + 1) * 2 ^ e1)%Q
    with (inject_Z (Zpos p / 2 ^ n1) * 2 ^ e1 + 2 ^ e1)%Q by ring.
  apply Qplus_le_compat; [exact H3 | apply Qle_refl].
Qed.

Lemma fexp_eq x : fexp prec emax x = Z.max (x - 53) (-1074).
Proof. reflexivity. Qed.

Lemma shift_of_eq m e :
  e + shift_of m e = Z.max e (Z.max (Zdigits2 m + e - 53) (-1074)).
Proof. unfold shift_of. rewrite fexp_eq. lia. Qed.

(** A mantissa of [d] digits is at least [2^(d-1)]: one unit of the
    exponent [d + e - 53] is at most [2^-52] of the value. *)
Lemma ulp_relative p e :
  (2 ^ (Zpos (digits2_pos p) + e - 53)
   <= inject_Z (Zpos p) * 2 ^ e * 2 ^ (-52))%Q.
Proof.
  pose proof (digits2_bounds p) as [Hd _].
  set (d := Zpos (digits2_pos p)) in *.
  replace (d + e - 53) with ((d - 1) + (e + -52)) by lia.
  rewrite pow2_add, pow2_add, <- pow2_inject by lia.
  rewrite Zle_Qle in Hd.
  pose proof (pow2_pos e). pose proof (pow2_pos (-52)).
  rewrite Qmult_assoc.
  apply Qmult_le_compat_r; [|lra]. apply Qmult_le_compat_r; [exact Hd|lra].
Qed.

(** The rounding of [binary_round_aux], from above: exact, or within
    [2^-52] of the value, or within the smallest positive Number. *)
Lemma round_upper p ex lx :
  lx = loc_Exact \/ 53 <= Zpos (digits2_pos p) ->
  (Number.SFvalue (binary_round_aux prec emax false (Zpos p) ex lx)
   <= inject_Z (Zpos p) * 2 ^ ex * (1 + 2 ^ (-52)) + 2 ^ (-1074))%Q.
Proof.
  intros Hcase.
  pose proof (pow2_pos ex) as Hpe. pose proof (pow2_pos (-52)) as Hp52.
  pose proof (pow2_pos (-1074)) as Hpmin.
  assert (Hv : (0 < inject_Z (Zpos p) * 2 ^ ex)%Q).
  { apply Qmult_lt_0_compat; [|exact Hpe]. rewrite <- (Zlt_Qlt 0). lia. }
  pose proof (ulp_relative p ex) as Hulp.
  pose proof (shift_of_eq (Zpos p) ex) as He1. simpl Zdigits2 in He1.
  set (d := Zpos (digits2_pos p)) in *.
  destruct (Z.eq_dec (ex + shift_of (Zpos p) ex) (d + ex - 53)) as [E|E];
    [|destruct (Z.eq_dec (ex + shift_of (Zpos p) ex) (-1074)) as [E'|E']].
  - pose proof (binary_round_aux_upper p ex lx) as H. rewrite E in H.
    nra.
  - pose proof (binary_round_aux_upper p ex lx) as H. rewrite E' in H.
    nra.
  - assert (Hn : shift_of (Zpos p) ex = 0) by lia.
    assert (Hlx : lx = loc_Exact) by (destruct Hcase; [assumption|lia]).
    destruct (binary_round_aux_spec false p ex lx) as (mr & _ & Hmr & ->).
    rewrite Hn in *. specialize (Hmr eq_refl Hlx).
    rewrite Z.pow_0_r, Z.div_1_r in Hmr. subst mr.
    replace (ex + 0) with ex by lia.
    pose proof (pack_value_le (Zpos p / 2 ^ shift_of (Zpos p) ex)
                  (ex + shift_of (Zpos p) ex)) as H1.
    assert (Hs := shift_of_nonneg (Zpos p) ex).
    assert (H0 : 0 <= Zpos p / 2 ^ shift_of (Zpos p) ex).
    { apply Z.div_pos; [lia|]. apply Z.pow_pos_nonneg; lia. }
    specialize (H1 H0).
    pose proof (floor_scale (Zpos p) (shift_of (Zpos p) ex) ex
                  ltac:(lia) Hs) as H2.
    nra.
Qed.

Lemma Zdigits2_le z k : 0 <= z < 2 ^ k -> 0 <= k -> Zdigits2 z <= k.
Proof.
  intros [H0 Hk] Hk0. destruct z as [|q|q]; simpl; [lia| |lia].
  pose proof (digits2_bounds q) as [Hd _].
  destruct (Z.le_gt_cases (Zpos (digits2_pos q)) k) as [|Hgt]; [assumption|].
  assert (2 ^ k <= 2 ^ (Zpos (digits2_pos q) - 1))
    by (apply Z.pow_le_mono_r; lia).
  lia.
Qed.

(** With a non-positive exponent and a mantissa of at most 200 digits,
    [binary_round_aux] does not overflow: it returns a zero or a finite
    Number of the sign it was given. *)
Lemma round_finite sx p ex lx :
  ex <= 0 -> Zpos (digits2_pos p) <= 200 ->
  binary_round_aux prec emax sx (Zpos p) ex lx = S754_zero sx
  \/ exists m e, binary_round_aux prec emax sx (Zpos p) ex lx
                 = S754_finite sx m e.
Proof.
  intros Hex Hd.
  destruct (binary_round_aux_spec sx p ex lx) as (mr & Hmr & _ & ->).
  pose proof (shift_of_eq (Zpos p) ex) as He1. simpl Zdigits2 in He1.
  pose proof (digits2_bounds p) as [_ Hp].
  set (d := Zpos (digits2_pos p)) in *.
  set (e1 := ex + shift_of (Zpos p) ex) in *.
  assert (Hs := shift_of_nonneg (Zpos p) ex).
  assert (Hm1 : 0 <= Zpos p / 2 ^ shift_of (Zpos p) ex <= Zpos p).
  { split; [apply Z.div_pos; [lia|]; apply Z.pow_pos_nonneg; lia|].
    apply Z.div_le_upper_bound; [apply Z.pow_pos_nonneg; lia|].
    pose proof (Z.pow_pos_nonneg 2 (shift_of (Zpos p) ex) ltac:(lia) Hs).
    nia. }
  assert (Hdm : Zdigits2 mr <= d + 1).
  { apply Zdigits2_le; [|lia]. split; [lia|].
    rewrite Z.pow_add_r, Z.pow_1_r by lia. lia. }
  pose proof (shift_of_eq mr e1) as He2.
  assert (Hle : e1 + shift_of mr e1 <= emax - prec).
  { change (emax - prec) with 971. lia. }
  unfold pack. destruct (mr / 2 ^ shift_of mr e1) as [|m|m] eqn:Hm.
  - now left.
  - right. apply Z.leb_le in Hle. rewrite Hle. now eexists; eexists.
  - assert (0 <= mr / 2 ^ shift_of mr e1).
    { apply Z.div_pos; [lia|].
      apply Z.pow_pos_nonneg; [lia|apply shift_of_nonneg]. }
    lia.
Qed.

(** ** Valid finite Numbers *)

Lemma bounded_inv m e :
  bounded prec emax m e = true ->
  Zpos (digits2_pos m) <= 53
  /\ -1074 <= e <= 971
  /\ (e = -1074 \/ Zpos (digits2_pos m) = 53).
Proof.
  unfold bounded, canonical_mantissa. rewrite fexp_eq.
  intros H. apply andb_prop in H. destruct H as [H1 H2].
  apply Z.eqb_eq in H1. apply Z.leb_le in H2.
  change (emax - prec) with 971 in H2. lia.
Qed.

Lemma bounded_intro m e :
  Zpos (digits2_pos m) = 53 -> -1074 <= e <= 971 ->
  bounded prec emax m e = true.
Proof.
  intros Hd He. unfold bounded, canonical_mantissa. rewrite fexp_eq, Hd.
  apply andb_true_intro. split; [apply Z.eqb_eq | apply Z.leb_le]; 
    change (emax - prec) with 971; lia.
Qed.

(** Of two valid positive Numbers, the one with the smaller exponent is the
    smaller. *)
Lemma exponent_lt_value_lt m1 e1 m2 e2 :
  bounded prec emax m1 e1 = true -> bounded prec emax m2 e2 = true ->
  e1 < e2 ->
  (inject_Z (Zpos m1) * 2 ^ e1 < inject_Z (Zpos m2) * 2 ^ e2)%Q.
Proof.
  intros H1 H2 Hlt.
  apply bounded_inv in H1. apply bounded_inv in H2.
  destruct H1 as (Hd1 & He1 & _). destruct H2 as (_ & He2 & Hn2).
  assert (Hd2 : Zpos (digits2_pos m2) = 53) by lia.
  pose proof (digits2_bounds m1) as [_ Hu1].
  pose proof (digits2_bounds m2) as [Hl2 _]. rewrite Hd2 in Hl2.
  assert (Hu : Zpos m1 < 2 ^ 53).
  { eapply Z.lt_le_trans; [exact Hu1|]. apply Z.pow_le_mono_r; lia. }
  rewrite Zlt_Qlt in Hu. rewrite Zle_Qle in Hl2.
  change (inject_Z (2 ^ 53)) with (9007199254740992 # 1)%Q in Hu.
  change (inject_Z (2 ^ (53 - 1))) with (4503599627370496 # 1)%Q in Hl2.
  pose proof (pow2_pos e1) as Hp1.
  pose proof (pow2_le (e1 + 1) e2 ltac:(lia)) as Hp.
  rewrite pow2_add in Hp. change (2 ^ 1)%Q with 2%Q in Hp.
  nra.
Qed.

(** [SFcompare] on valid positive Numbers compares their values. *)
Lemma SFcompare_pos m1 e1 m2 e2 :
  bounded prec emax m1 e1 = true -> bounded prec emax m2 e2 = true ->
  SFcompare (S754_finite false m1 e1) (S754_finite false m2 e2)
  = Some (inject_Z (Zpos m1) * 2 ^ e1 ?= inject_Z (Zpos m2) * 2 ^ e2)%Q.
Proof.
  intros H1 H2. simpl. f_equal.
  destruct (Z.compare_spec e1 e2) as [E|E|E].
  - subst e2. rewrite Pos.compare_cont_spec. simpl.
    pose proof (pow2_pos e1) as Hp.
    destruct (Pos.compare_spec m1 m2) as [Hm|Hm|Hm]; symmetry.
    + subst. apply Qeq_alt. reflexivity.
    + apply Qlt_alt. apply Qmult_lt_compat_r; [exact Hp|].
      rewrite <- Zlt_Qlt. lia.
    + apply Qgt_alt. apply Qmult_lt_compat_r; [exact Hp|].
      rewrite <- Zlt_Qlt. lia.
  - symmetry. apply Qlt_alt. now apply exponent_lt_value_lt.
  - symmetry. apply Qgt_alt. now apply exponent_lt_value_lt.
Qed.

(* ===================================================================== *)
(** ** Binary64: integers, quotients and products *)
(* ===================================================================== *)

(** A mantissa of exactly 53 digits with an exponent in range is returned
    as it is. *)
Lemma binary_round_aux_exact sx p e :
  Zpos (digits2_pos p) = 53 -> -1074 <= e <= 971 ->
  binary_round_aux prec emax sx (Zpos p) e loc_Exact = S754_finite sx p e.
Proof.
  intros Hd He.
  destruct (binary_round_aux_spec sx p e loc_Exact) as (mr & _ & Hmr & ->).
  pose proof (shift_of_eq (Zpos p) e) as H1. simpl Zdigits2 in H1.
  pose proof (shift_of_nonneg (Zpos p) e) as H0.
  assert (Hn : shift_of (Zpos p) e = 0) by lia.
  rewrite Hn in *. specialize (Hmr eq_refl eq_refl).
  rewrite Z.pow_0_r, Z.div_1_r in Hmr. subst mr.
  replace (e + 0) with e by lia. rewrite Hn.
  rewrite Z.pow_0_r, Z.div_1_r. replace (e + 0) with e by lia.
  unfold pack. change (emax - prec) with 971.
  destruct (Z.leb_spec e 971); [reflexivity|lia].
Qed.

(** The Number of a positive integer of at most 53 digits: its digits,
    shifted left to fill the mantissa. *)
Lemma binary_round_small sx p :
  Zpos (digits2_pos p) <= 53 ->
  exists m e,
    binary_round prec emax sx p 0 = S754_finite sx m e
    /\ Zpos (digits2_pos m) = 53
    /\ e = Zpos (digits2_pos p) - 53
    /\ Zpos m = Zpos p * 2 ^ (- e).
Proof.
  intros Hd. unfold binary_round, shl_align.
  rewrite Z.add_0_r, fexp_eq.
  replace (Z.max (Zpos (digits2_pos p) - 53) (-1074))
    with (Zpos (digits2_pos p) - 53) by lia.
  rewrite Z.sub_0_r.
  destruct (Zpos (digits2_pos p) - 53) as [|k|k] eqn:Hk; [|lia|].
  - exists p, 0. rewrite binary_round_aux_exact by lia.
    repeat split; try lia.
  - assert (Hdm : Zpos (digits2_pos (Pos.iter xO p k)) = 53).
    { rewrite digits2_iter_xO. lia. }
    exists (Pos.iter xO p k), (Zneg k).
    rewrite binary_round_aux_exact by lia.
    repeat split; try lia. rewrite iter_xO. reflexivity.
Qed.

(** The float of a non-zero integer below [2^53] in magnitude. *)
Lemma ofZ_finite z :
  z <> 0 -> Z.abs z < 2 ^ 53 ->
  exists m e,
    Prim2SF (Number.ofZ z) = S754_finite (z <? 0) m e
    /\ Zpos (digits2_pos m) = 53
    /\ -52 <= e <= 0
    /\ Zpos m = Z.abs z * 2 ^ (- e).
Proof.
  intros Hz Hlt. unfold Number.ofZ, binary_normalize.
  destruct z as [|p|p]; [congruence| |].
  - assert (Hd : Zpos (digits2_pos p) <= 53).
    { apply (Zdigits2_le (Zpos p)); lia. }
    destruct (binary_round_small false p Hd) as (m & e & -> & Hm & He & Hv).
    exists m, e. rewrite Prim2SF_SF2Prim by (apply bounded_intro; lia).
    pose proof (digits2_bounds p). repeat split; try lia; exact Hv.
  - assert (Hd : Zpos (digits2_pos p) <= 53).
    { apply (Zdigits2_le (Zpos p)); lia. }
    destruct (binary_round_small true p Hd) as (m & e & -> & Hm & He & Hv).
    exists m, e. rewrite Prim2SF_SF2Prim by (apply bounded_intro; lia).
    pose proof (digits2_bounds p). repeat split; try lia; exact Hv.
Qed.

Lemma ofZ_zero : Prim2SF (Number.ofZ 0) = S754_zero false.
Proof. reflexivity. Qed.

(** The value of a scaled mantissa. *)
Lemma scaled_value m z e :
  e <= 0 -> m = z * 2 ^ (- e) -> (inject_Z m * 2 ^ e == inject_Z z)%Q.
Proof.
  intros He ->. rewrite inject_Z_mult, pow2_inject by lia.
  rewrite <- Qmult_assoc, <- pow2_add.
  replace (- e + e) with 0 by lia. change (2 ^ 0)%Q with 1%Q. ring.
Qed.

(** [ofZ] is exact below [2^53]. *)
Lemma ofZ_value z :
  Z.abs z < 2 ^ 53 -> (Number.value (Number.ofZ z) == inject_Z z)%Q.
Proof.
  intros Hlt. unfold Number.value.
  destruct (Z.eq_dec z 0) as [->|Hz]; [reflexivity|].
  destruct (ofZ_finite z Hz Hlt) as (m & e & -> & _ & He & Hm).
  simpl Number.SFvalue.
  pose proof (scaled_value (Zpos m) (Z.abs z) e ltac:(lia) Hm) as Hs.
  destruct (Z.ltb_spec z 0); simpl cond_Zopp.
  - change (Z.neg m) with (- Zpos m). rewrite inject_Z_opp.
    assert (Hz' : (inject_Z z == - inject_Z (Z.abs z))%Q).
    { rewrite <- inject_Z_opp. f_equiv. lia. }
    rewrite Hz', <- Hs. ring.
  - rewrite Hs. f_equiv. lia.
Qed.

Lemma mantissa_bounds m :
  Zpos (digits2_pos m) = 53 -> 2 ^ 52 <= Zpos m < 2 ^ 53.
Proof. intros H. pose proof (digits2_bounds m) as Hb. now rewrite H in Hb. Qed.

(** The quotient of two normal mantissas, as [SFdiv] computes it before
    rounding. *)
Lemma SFdiv_core_normal m1 e1 m2 e2 :
  Zpos (digits2_pos m1) = 53 -> Zpos (digits2_pos m2) = 53 ->
  -52 <= e1 <= 0 -> -52 <= e2 <= 0 ->
  SFdiv_core_binary prec emax (Zpos m1) e1 (Zpos m2) e2
  = (Zpos m1 * 2 ^ 53 / Zpos m2, e1 - e2 - 53,
     new_location (Zpos m2) (Zpos m1 * 2 ^ 53 mod Zpos m2)).
Proof.
  intros Hd1 Hd2 He1 He2. unfold SFdiv_core_binary.
  simpl Zdigits2. rewrite Hd1, Hd2, fexp_eq.
  replace (Z.min (Z.max (53 + e1 - (53 + e2) - 53) (-1074)) (e1 - e2))
    with (e1 - e2 - 53) by lia.
  replace (e1 - e2 - (e1 - e2 - 53)) with 53 by lia.
  rewrite Z.shiftl_mul_pow2 by lia.
  unfold Z.div, Z.modulo.
  now destruct (Z.div_eucl (Zpos m1 * 2 ^ 53) (Zpos m2)).
Qed.

(** The quotient of two normal Numbers with small exponents: finite, and at
    most [1 + 2^-52] times the exact quotient (stated without division). *)
Lemma SFdiv_upper m1 e1 m2 e2 :
  Zpos (digits2_pos m1) = 53 -> Zpos (digits2_pos m2) = 53 ->
  -52 <= e1 <= 0 -> -52 <= e2 <= 0 ->
  let r :=
    SFdiv prec emax (S754_finite false m1 e1) (S754_finite false m2 e2) in
  (r = S754_zero false \/ exists m e, r = S754_finite false m e)
  /\ (Number.SFvalue r * (inject_Z (Zpos m2) * 2 ^ e2)
      <= inject_Z (Zpos m1) * 2 ^ e1 * (1 + 2 ^ (-52))
         + 2 ^ (-1074) * (inject_Z (Zpos m2) * 2 ^ e2))%Q.
Proof.
  intros Hd1 Hd2 He1 He2 r. subst r. unfold SFdiv.
  rewrite SFdiv_core_normal by assumption. simpl xorb.
  pose proof (mantissa_bounds m1 Hd1) as Hm1.
  pose proof (mantissa_bounds m2 Hd2) as Hm2.
  set (q := Zpos m1 * 2 ^ 53 / Zpos m2).
  assert (Hq1 : q * Zpos m2 <= Zpos m1 * 2 ^ 53).
  { unfold q. rewrite Z.mul_comm. apply Z.mul_div_le. lia. }
  assert (Hq2 : 2 ^ 52 <= q).
  { unfold q. apply Z.div_le_lower_bound; [lia|]. nia. }
  assert (Hq3 : q < 2 ^ 54).
  { unfold q. apply Z.div_lt_upper_bound; [lia|]. nia. }
  destruct q as [|pq|pq] eqn:Hq; [lia| |lia].
  assert (Hdq : 53 <= Zpos (digits2_pos pq) <= 54).
  { pose proof (digits2_bounds pq) as [Hl Hu]. split.
    - destruct (Z.le_gt_cases 53 (Zpos (digits2_pos pq))); [assumption|].
      assert (2 ^ Zpos (digits2_pos pq) <= 2 ^ 52)
        by (apply Z.pow_le_mono_r; lia). lia.
    - apply (Zdigits2_le (Zpos pq)); lia. }
  split.
  - apply round_finite; lia.
  - pose proof (round_upper pq (e1 - e2 - 53)
                  (new_location (Zpos m2) (Zpos m1 * 2 ^ 53 mod Zpos m2))
                  ltac:(right; lia)) as Hup.
    set (v := Number.SFvalue _) in *.
    rewrite Zle_Qle, !inject_Z_mult, pow2_inject in Hq1 by lia.
    pose proof (pow2_add (e1 - e2 - 53) e2) as Ha1.
    pose proof (pow2_add 53 (e1 - 53)) as Ha2.
    replace (e1 - e2 - 53 + e2) with (e1 - 53) in Ha1 by lia.
    replace (53 + (e1 - 53)) with e1 in Ha2 by lia.
    pose proof (pow2_pos (e1 - e2 - 53)). pose proof (pow2_pos e2).
    pose proof (pow2_pos (e1 - 53)). pose proof (pow2_pos 53).
    pose proof (pow2_pos e1). pose proof (pow2_pos (-52)).
    pose proof (pow2_pos (-1074)).
    assert (Hm2pos : (0 < inject_Z (Zpos m2))%Q)
      by (rewrite <- (Zlt_Qlt 0); lia).
    assert (Hmain : (inject_Z (Zpos pq) * 2 ^ (e1 - e2 - 53)
                     * (inject_Z (Zpos m2) * 2 ^ e2)
                     <= inject_Z (Zpos m1) * 2 ^ e1)%Q).
    { setoid_replace (inject_Z (Zpos pq) * 2 ^ (e1 - e2 - 53)
                      * (inject_Z (Zpos m2) * 2 ^ e2))%Q
        with ((inject_Z (Zpos pq) * inject_Z (Zpos m2))
              * (2 ^ (e1 - e2 - 53) * 2 ^ e2))%Q by ring.
      rewrite <- Ha1.
      setoid_replace (inject_Z (Zpos m1) * 2 ^ e1)%Q
        with ((inject_Z (Zpos m1) * 2 ^ 53) * 2 ^ (e1 - 53))%Q
        by (rewrite Ha2; ring).
      apply Qmult_le_compat_r; [exact Hq1|lra]. }
    assert (Hv2 : (0 < inject_Z (Zpos m2) * 2 ^ e2)%Q)
      by (apply Qmult_lt_0_compat; assumption).
    set (v2 := (inject_Z (Zpos m2) * 2 ^ e2)%Q) in *.
    set (v1 := (inject_Z (Zpos m1) * 2 ^ e1)%Q) in *.
    set (vq := (inject_Z (Zpos pq) * 2 ^ (e1 - e2 - 53))%Q) in *.
    assert (Hstep : (v * v2 <= (vq * (1 + 2 ^ (-52)) + 2 ^ (-1074)) * v2)%Q).
    { apply Qmult_le_compat_r; [exact Hup|lra]. }
    nra.
Qed.

Lemma positive_value m e : (0 < inject_Z (Zpos m) * 2 ^ e)%Q.
Proof.
  apply Qmult_lt_0_compat; [|apply pow2_pos]. rewrite <- (Zlt_Qlt 0). lia.
Qed.

Lemma nonneg_value v : nonneg v = true -> (0 <= Number.SFvalue v)%Q.
Proof.
  destruct v as [s| | |s m e]; simpl; try discriminate; try (intros; lra).
  destruct s; [discriminate|]. intros _. simpl.
  apply Qlt_le_weak, positive_value.
Qed.

(** [SFleb] on valid Numbers that are zero or positive compares values. *)
Lemma SFleb_nonneg a b :
  valid_binary a = true -> valid_binary b = true ->
  nonneg a = true -> nonneg b = true ->
  (SFleb a b = true <-> (Number.SFvalue a <= Number.SFvalue b)%Q).
Proof.
  intros Va Vb Na Nb.
  destruct a as [sa| | |sa ma ea]; try discriminate;
    destruct b as [sb| | |sb mb eb]; try discriminate.
  - simpl. split; [intros; lra|reflexivity].
  - destruct sb; [discriminate|]. simpl.
    pose proof (positive_value mb eb). split; [intros; lra|reflexivity].
  - destruct sa; [discriminate|]. simpl.
    pose proof (positive_value ma ea). split; [discriminate|intros; lra].
  - destruct sa; [discriminate|]. destruct sb; [discriminate|].
    unfold SFleb. rewrite SFcompare_pos by assumption. simpl Number.SFvalue.
    destruct (Qcompare_spec (inject_Z (Zpos ma) * 2 ^ ea)
                (inject_Z (Zpos mb) * 2 ^ eb)) as [H|H|H];
      (split; [intros; try discriminate; lra | intros; try reflexivity; lra]).
Qed.

(** What [0 <= v] and [v <= w] say of [v], for a finite [w]. *)
Lemma leb_zero_nonneg v w :
  (0 <=? v)%float = true -> (v <=? w)%float = true ->
  Number.isFinite w = true ->
  nonneg (Prim2SF v) = true.
Proof.
  rewrite !leb_spec. unfold Number.isFinite.
  change (Prim2SF 0) with (S754_zero false).
  destruct (Prim2SF v) as [s|s| |s m e]; simpl;
    try discriminate; try reflexivity.
  - destruct s; [discriminate|]. intros _.
    destruct (Prim2SF w) as [s'|s'| |s' m' e']; simpl; try discriminate.
  - destruct s; [discriminate|reflexivity].
Qed.

(** A valid Number below [2^53] has no positive exponent. *)
Lemma small_value_exponent m e :
  bounded prec emax m e = true ->
  (inject_Z (Zpos m) * 2 ^ e < inject_Z (2 ^ 53))%Q -> e <= 0.
Proof.
  intros Hb Hv. apply bounded_inv in Hb.
  destruct Hb as (_ & He & [->|Hd]); [lia|].
  destruct (Z.le_gt_cases e 0) as [|Hpos]; [assumption|exfalso].
  pose proof (mantissa_bounds m Hd) as [Hm _].
  rewrite Zle_Qle in Hm.
  pose proof (pow2_le 1 e ltac:(lia)) as Hp. change (2 ^ 1)%Q with 2%Q in Hp.
  change (inject_Z (2 ^ 53)) with (9007199254740992 # 1)%Q in Hv.
  change (inject_Z (2 ^ 52)) with (4503599627370496 # 1)%Q in Hm.
  nra.
Qed.

(** The product of two valid positive Numbers whose exponents add up to at
    most 0: finite, and at most [1 + 2^-52] times the exact product, plus
    the smallest positive Number. *)
Lemma SFmul_upper m1 e1 m2 e2 :
  bounded prec emax m1 e1 = true -> bounded prec emax m2 e2 = true ->
  e1 + e2 <= 0 ->
  let r :=
    SFmul prec emax (S754_finite false m1 e1) (S754_finite false m2 e2) in
  nonneg r = true
  /\ (Number.SFvalue r
      <= inject_Z (Zpos m1) * 2 ^ e1 * (inject_Z (Zpos m2) * 2 ^ e2)
         * (1 + 2 ^ (-52)) + 2 ^ (-1074))%Q.
Proof.
  intros H1 H2 He r. subst r. unfold SFmul. simpl xorb.
  apply bounded_inv in H1. apply bounded_inv in H2.
  destruct H1 as (Hd1 & _ & _). destruct H2 as (Hd2 & _ & _).
  assert (Hd : Zpos (digits2_pos (m1 * m2)) <= 200).
  { pose proof (digits2_bounds m1) as [_ Hu1].
    pose proof (digits2_bounds m2) as [_ Hu2].
    assert (Zpos m1 < 2 ^ 53)
      by (eapply Z.lt_le_trans; [exact Hu1|apply Z.pow_le_mono_r; lia]).
    assert (Zpos m2 < 2 ^ 53)
      by (eapply Z.lt_le_trans; [exact Hu2|apply Z.pow_le_mono_r; lia]).
    assert (Zdigits2 (Zpos (m1 * m2)) <= 106); [|simpl in *; lia].
    apply Zdigits2_le; [|lia]. rewrite Pos2Z.inj_mul.
    change (2 ^ 106) with (2 ^ 53 * 2 ^ 53). nia. }
  split.
  - destruct (round_finite false (m1 * m2) (e1 + e2) loc_Exact He Hd)
      as [->|(m & e & ->)]; reflexivity.
  - pose proof (round_upper (m1 * m2) (e1 + e2) loc_Exact (or_introl eq_refl))
      as Hup.
    rewrite Pos2Z.inj_mul, inject_Z_mult, pow2_add in Hup.
    eapply Qle_trans; [exact Hup|].
    apply Qplus_le_compat; [|apply Qle_refl].
    apply Qmult_le_compat_r; [|pose proof (pow2_pos (-52)); lra].
    apply Qle_lteq. right. ring.
Qed.

(* ===================================================================== *)
(** ** [Math.round] and the coordinate mapper *)
(* ===================================================================== *)

(** The integer [Math.round] computes for a finite Number with a negative
    exponent is [floor (value + 1/2)]. *)
Lemma round_quotient sm e :
  e < 0 ->
  (2 * sm + 2 ^ (- e)) / 2 ^ (1 - e)
  = Qfloor (inject_Z sm * 2 ^ e + (1 # 2))%Q.
Proof.
  intros He. rewrite Zdiv_Qdiv. apply Qfloor_comp.
  rewrite inject_Z_plus, inject_Z_mult, !pow2_inject by lia.
  replace (1 - e) with (1 + - e) by lia. rewrite pow2_add.
  change (2 ^ 1)%Q with 2%Q. change (inject_Z 2) with 2%Q.
  pose proof (pow2_add e (- e)) as H. replace (e + - e) with 0 in H by lia.
  change (2 ^ 0)%Q with 1%Q in H.
  pose proof (pow2_pos (- e)) as Hp.
  assert (Hinv : (2 ^ e == / 2 ^ (- e))%Q).
  { apply (Qmult_inj_r _ _ (2 ^ (- e))%Q); [lra|].
    rewrite <- H. field. lra. }
  rewrite Hinv. field. lra.
Qed.

Lemma Qfloor_half z : Qfloor (inject_Z z + (1 # 2))%Q = z.
Proof.
  pose proof (Qfloor_le (inject_Z z + (1 # 2))) as H1.
  pose proof (Qlt_floor (inject_Z z + (1 # 2))) as H2.
  set (k := Qfloor (inject_Z z + (1 # 2))%Q) in *.
  assert (Ha : (inject_Z k < inject_Z (z + 1))%Q).
  { rewrite inject_Z_plus. change (inject_Z 1) with 1%Q. lra. }
  assert (Hb : (inject_Z z < inject_Z (k + 1))%Q).
  { rewrite inject_Z_plus in *. change (inject_Z 1) with 1%Q in *. lra. }
  rewrite <- Zlt_Qlt in Ha, Hb. lia.
Qed.

(** The integer [Math.round] computes is below [2^53] in magnitude. *)
Lemma round_quotient_small s m e :
  bounded prec emax m e = true -> e < 0 ->
  Z.abs ((2 * cond_Zopp s (Zpos m) + 2 ^ (- e)) / 2 ^ (1 - e)) < 2 ^ 53.
Proof.
  intros Hb He. apply bounded_inv in Hb. destruct Hb as (Hd & _ & _).
  pose proof (digits2_bounds m) as [_ Hu].
  assert (Hm : Zpos m < 2 ^ 53)
    by (eapply Z.lt_le_trans; [exact Hu|apply Z.pow_le_mono_r; lia]).
  replace (1 - e) with (Z.succ (- e)) by lia. rewrite Z.pow_succ_r by lia.
  assert (HD : 2 <= 2 ^ (- e)).
  { change 2 with (2 ^ 1) at 1. apply Z.pow_le_mono_r; lia. }
  set (D := 2 ^ (- e)) in *.
  set (sm := cond_Zopp s (Zpos m)).
  assert (Hsm : - 2 ^ 53 < sm < 2 ^ 53) by (unfold sm; destruct s; simpl; lia).
  change (2 ^ 53) with 9007199254740992 in *.
  apply Z.abs_lt. split.
  - apply Z.lt_le_trans with (- 4503599627370496); [lia|].
    apply Z.div_le_lower_bound; [lia|]. nia.
  - apply Z.div_lt_upper_bound; [lia|]. nia.
Qed.

(** [Math.round] case by case. *)
Lemma round_integral v s m e :
  Prim2SF v = S754_finite s m e -> 0 <= e -> Number.round v = v.
Proof.
  intros H He. unfold Number.round. rewrite H.
  destruct (Z.leb_spec 0 e); [reflexivity|lia].
Qed.

Lemma round_fractional v s m e :
  Prim2SF v = S754_finite s m e -> e < 0 ->
  Number.round v =
  if (2 * cond_Zopp s (Zpos m) + 2 ^ (- e)) / 2 ^ (1 - e) =? 0
  then (if s then neg_zero else zero)
  else Number.ofZ ((2 * cond_Zopp s (Zpos m) + 2 ^ (- e)) / 2 ^ (1 - e)).
Proof.
  intros H He. unfold Number.round. rewrite H.
  destruct (Z.leb_spec 0 e); [lia|reflexivity].
Qed.

Lemma round_other v :
  (forall s m e, Prim2SF v <> S754_finite s m e) -> Number.round v = v.
Proof.
  intros H. unfold Number.round.
  destruct (Prim2SF v) as [s|s| |s m e] eqn:HP; try reflexivity.
  now elim (H s m e).
Qed.

(** [Math.round] of a finite Number denotes [floor (v + 1/2)]. *)
Lemma round_value v :
  Number.isFinite v = true ->
  (Number.value (Number.round v)
   == inject_Z (Qfloor (Number.value v + (1 # 2))))%Q.
Proof.
  unfold Number.isFinite, Number.value.
  pose proof (Prim2SF_valid v) as Hvalid.
  destruct (Prim2SF v) as [s|s| |s m e] eqn:HP; try discriminate; intros _.
  - rewrite round_other by (intros; congruence). rewrite HP. reflexivity.
  - change (Number.SFvalue (S754_finite s m e))
      with (inject_Z (cond_Zopp s (Zpos m)) * 2 ^ e)%Q.
    destruct (Z.le_gt_cases 0 e) as [He|He].
    + rewrite (round_integral v s m e HP He), HP.
      change (Number.SFvalue (S754_finite s m e))
        with (inject_Z (cond_Zopp s (Zpos m)) * 2 ^ e)%Q.
      rewrite <- pow2_inject, <- inject_Z_mult by exact He.
      now rewrite Qfloor_half.
    + rewrite (round_fractional v s m e HP He).
      rewrite <- round_quotient by exact He.
      pose proof (round_quotient_small s m e Hvalid He) as Hk.
      set (k := (2 * cond_Zopp s (Zpos m) + 2 ^ (- e)) / 2 ^ (1 - e)) in *.
      destruct (Z.eqb_spec k 0) as [Hk0|Hk0].
      * rewrite Hk0. destruct s; reflexivity.
      * exact (ofZ_value k Hk).
Qed.

(** [Math.round] of a zero or positive Number is a zero or positive Number. *)
Lemma round_nonneg v :
  nonneg (Prim2SF v) = true -> nonneg (Prim2SF (Number.round v)) = true.
Proof.
  pose proof (Prim2SF_valid v) as Hvalid.
  destruct (Prim2SF v) as [s|s| |s m e] eqn:HP; try discriminate; intros Hn.
  - rewrite round_other by (intros; congruence). now rewrite HP.
  - destruct s; [discriminate|].
    destruct (Z.le_gt_cases 0 e) as [He|He].
    { rewrite (round_integral v false m e HP He). now rewrite HP. }
    rewrite (round_fractional v false m e HP He).
    pose proof (round_quotient_small false m e Hvalid He) as Hk.
    set (k := (2 * cond_Zopp false (Zpos m) + 2 ^ (- e)) / 2 ^ (1 - e)) in *.
    assert (Hk0 : 0 <= k).
    { unfold k. apply Z.div_pos; [|apply Z.pow_pos_nonneg; lia].
      assert (0 < 2 ^ (- e)) by (apply Z.pow_pos_nonneg; lia).
      simpl cond_Zopp. lia. }
    destruct (Z.eqb_spec k 0) as [Hz|Hne]; [reflexivity|].
    destruct (ofZ_finite k Hne Hk) as (m' & e' & -> & _).
    simpl. destruct (Z.ltb_spec k 0); [lia|reflexivity].
Qed.

Lemma ofZ_nonneg z : 0 <= z < 2 ^ 53 -> nonneg (Prim2SF (Number.ofZ z)) = true.
Proof.
  intros Hz. destruct (Z.eq_dec z 0) as [->|Hne]; [reflexivity|].
  destruct (ofZ_finite z Hne ltac:(lia)) as (m & e & -> & _).
  simpl. destruct (Z.ltb_spec z 0); [lia|reflexivity].
Qed.

Lemma nonneg_isFinite v : nonneg (Prim2SF v) = true -> Number.isFinite v = true.
Proof. unfold Number.isFinite. now destruct (Prim2SF v). Qed.

(** [2^-1074], the smallest positive Number, is below [2^-64]. *)
Lemma tiny_le : (2 ^ (-1074) <= 1 # 18446744073709551616)%Q.
Proof.
  change (1 # 18446744073709551616)%Q with (2 ^ (-64))%Q.
  apply pow2_le. lia.
Qed.

Lemma eps_eq : (2 ^ (-52) == 1 # 4503599627370496)%Q.
Proof. reflexivity. Qed.

(** Adding one to a mantissa keeps its number of digits, unless it makes it
    the next power of two. *)
Lemma Zdigits2_succ m :
  0 <= m -> Zdigits2 (m + 1) = Zdigits2 m \/ m + 1 = 2 ^ Zdigits2 m.
Proof.
  intros Hm. destruct m as [|p|p]; [now right| |lia].
  pose proof (digits2_bounds p) as [Hl Hu]. simpl Zdigits2.
  destruct (Z.eq_dec (Zpos p + 1) (2 ^ Zpos (digits2_pos p))) as [E|E];
    [now right|left].
  replace (Zpos p + 1) with (Zpos (p + 1)) by lia. simpl Zdigits2.
  apply digits2_unique. lia.
Qed.

(** The digits left after dropping [n] of them. *)
Lemma Zdigits2_div p n :
  0 <= n ->
  Zdigits2 (Zpos p / 2 ^ n) = Z.max 0 (Zpos (digits2_pos p) - n).
Proof.
  intros Hn. pose proof (digits2_bounds p) as [Hl Hu].
  set (d := Zpos (digits2_pos p)) in *.
  assert (Hp : 0 < 2 ^ n) by (apply Z.pow_pos_nonneg; lia).
  destruct (Z.le_gt_cases d n) as [Hdn|Hdn].
  - assert (Hsmall : Zpos p / 2 ^ n = 0).
    { apply Z.div_small. split; [lia|].
      eapply Z.lt_le_trans; [exact Hu|]. apply Z.pow_le_mono_r; lia. }
    rewrite Hsmall. change (Zdigits2 0) with 0. lia.
  - assert (Hq : 2 ^ (d - n - 1) <= Zpos p / 2 ^ n < 2 ^ (d - n)).
    { split.
      - apply Z.div_le_lower_bound; [exact Hp|].
        rewrite <- Z.pow_add_r by lia. replace (n + (d - n - 1)) with (d - 1) by lia.
        exact Hl.
      - apply Z.div_lt_upper_bound; [exact Hp|].
        rewrite <- Z.pow_add_r by lia. replace (n + (d - n)) with d by lia.
        exact Hu. }
    assert (0 < 2 ^ (d - n - 1)) by (apply Z.pow_pos_nonneg; lia).
    destruct (Zpos p / 2 ^ n) as [|q|q] eqn:Eq; [lia| |lia].
    simpl Zdigits2. rewrite (digits2_unique q (d - n)); [lia|].
    replace (d - n - 1) with (d - n - 1) in Hq by lia. exact Hq.
Qed.

(** After [shr_fexp] has dropped its bits, the mantissa needs no further
    shift. *)
Lemma shift_of_shifted p ex :
  shift_of (Zpos p / 2 ^ shift_of (Zpos p) ex) (ex + shift_of (Zpos p) ex) = 0.
Proof.
  pose proof (shift_of_nonneg (Zpos p) ex) as Hn.
  pose proof (shift_of_eq (Zpos p) ex) as He. simpl Zdigits2 in He.
  set (n := shift_of (Zpos p) ex) in *.
  pose proof (shift_of_eq (Zpos p / 2 ^ n) (ex + n)) as He'.
  pose proof (shift_of_nonneg (Zpos p / 2 ^ n) (ex + n)) as Hn'.
  rewrite Zdigits2_div in He' by exact Hn.
  lia.
Qed.

(** The second shift of [binary_round_aux] drops no set bit. *)
Lemma second_shift_exact m e mr :
  0 <= m -> shift_of m e = 0 -> m <= mr <= m + 1 ->
  mr / 2 ^ shift_of mr e * 2 ^ shift_of mr e = mr.
Proof.
  intros Hm Hs Hmr.
  assert (Hcase : mr = m \/ mr = m + 1) by lia.
  destruct Hcase as [->| ->]; [rewrite Hs; simpl; rewrite Z.div_1_r; lia|].
  pose proof (shift_of_eq m e) as He. rewrite Hs in He.
  pose proof (shift_of_eq (m + 1) e) as He'.
  pose proof (shift_of_nonneg (m + 1) e) as Hn'.
  destruct (Zdigits2_succ m Hm) as [Hd|Hpow].
  - rewrite Hd in He'. assert (Hz : shift_of (m + 1) e = 0) by lia.
    rewrite Hz. simpl. rewrite Z.div_1_r. lia.
  - assert (HD : 0 <= Zdigits2 m) by (destruct m; simpl; lia).
    assert (Hd : Zdigits2 (m + 1) = Zdigits2 m + 1).
    { rewrite Hpow. destruct (Zdigits2 m) as [|k|k] eqn:Ek; [reflexivity| |lia].
      assert (Hpk : 0 < 2 ^ Zpos k) by (apply Z.pow_pos_nonneg; lia).
      destruct (2 ^ Zpos k) as [|q|q] eqn:Eq; [lia| |lia].
      simpl Zdigits2. apply digits2_unique. rewrite <- Eq.
      replace (Zpos k + 1 - 1) with (Zpos k) by lia.
      split; [lia|]. apply Z.pow_lt_mono_r; lia. }
    rewrite Hd in He'.
    assert (Hz : shift_of (m + 1) e = 0 \/ shift_of (m + 1) e = 1) by lia.
    destruct Hz as [Hz|Hz]; rewrite Hz.
    + simpl. rewrite Z.div_1_r. lia.
    + assert (HD1 : 1 <= Zdigits2 m) by lia.
      rewrite Hpow. change (2 ^ 1) with 2.
      replace (Zdigits2 m) with (Z.succ (Zdigits2 m - 1)) by lia.
      rewrite Z.pow_succ_r by lia.
      rewrite (Z.mul_comm 2), Z.div_mul by lia. reflexivity.
Qed.

Lemma pack_value_eq m e :
  0 <= m -> e <= emax - prec ->
  (Number.SFvalue (pack false m e) == inject_Z m * 2 ^ e)%Q.
Proof.
  intros Hm He. unfold pack. destruct m as [|m|m]; [simpl; ring| |lia].
  apply Z.leb_le in He. rewrite He. reflexivity.
Qed.

(** The exponent [binary_round_aux] settles on stays in range when the
    exponent it is given is not positive and the mantissa has at most 200
    digits. *)
Lemma rounded_exponent_small p ex mr :
  ex <= 0 -> Zpos (digits2_pos p) <= 200 ->
  0 <= mr <= Zpos p / 2 ^ shift_of (Zpos p) ex + 1 ->
  ex + shift_of (Zpos p) ex + shift_of mr (ex + shift_of (Zpos p) ex)
  <= emax - prec.
Proof.
  intros Hex Hd Hmr.
  pose proof (shift_of_eq (Zpos p) ex) as He1. simpl Zdigits2 in He1.
  pose proof (digits2_bounds p) as [_ Hp].
  set (d := Zpos (digits2_pos p)) in *.
  set (e1 := ex + shift_of (Zpos p) ex) in *.
  assert (Hs := shift_of_nonneg (Zpos p) ex).
  assert (Hm1 : Zpos p / 2 ^ shift_of (Zpos p) ex <= Zpos p).
  { apply Z.div_le_upper_bound; [apply Z.pow_pos_nonneg; lia|].
    pose proof (Z.pow_pos_nonneg 2 (shift_of (Zpos p) ex) ltac:(lia) Hs).
    nia. }
  assert (Hdm : Zdigits2 mr <= d + 1).
  { apply Zdigits2_le; [|lia]. split; [lia|].
    rewrite Z.pow_add_r, Z.pow_1_r by lia. lia. }
  pose proof (shift_of_eq mr e1) as He2.
  change (emax - prec) with 971. lia.
Qed.

(** The rounding of [binary_round_aux], from below. *)
Lemma round_lower p ex lx :
  ex <= 0 -> Zpos (digits2_pos p) <= 200 ->
  (inject_Z (Zpos p) * 2 ^ ex * (1 - 2 ^ (-52)) - 2 ^ (-1074)
   <= Number.SFvalue (binary_round_aux prec emax false (Zpos p) ex lx))%Q.
Proof.
  intros Hex Hd.
  destruct (binary_round_aux_spec false p ex lx) as (mr & Hmr & _ & ->).
  pose proof (shift_of_nonneg (Zpos p) ex) as Hn1.
  pose proof (shift_of_eq (Zpos p) ex) as He1. simpl Zdigits2 in He1.
  pose proof (ulp_relative p ex) as Hulp.
  set (d := Zpos (digits2_pos p)) in *.
  set (n1 := shift_of (Zpos p) ex) in *.
  set (e1 := ex + n1) in *.
  set (m1 := Zpos p / 2 ^ n1) in *.
  assert (Hp1 : 0 < 2 ^ n1) by (apply Z.pow_pos_nonneg; lia).
  assert (Hm1 : 0 <= m1) by (apply Z.div_pos; lia).
  pose proof (shift_of_nonneg mr e1) as Hn2.
  (* the value returned is mr * 2^e1 *)
  assert (Hval : (Number.SFvalue (pack false (mr / 2 ^ shift_of mr e1)
                                    (e1 + shift_of mr e1))
                  == inject_Z mr * 2 ^ e1)%Q).
  { pose proof (second_shift_exact m1 e1 mr Hm1 (shift_of_shifted p ex) Hmr)
      as Hex2.
    set (n2 := shift_of mr e1) in *.
    assert (HQ : (inject_Z mr == inject_Z (mr / 2 ^ n2) * 2 ^ n2)%Q).
    { rewrite <- pow2_inject, <- inject_Z_mult, Hex2 by exact Hn2.
      reflexivity. }
    rewrite pack_value_eq.
    - rewrite HQ, pow2_add. ring.
    - apply Z.div_pos; [lia|]. apply Z.pow_pos_nonneg; lia.
    - apply rounded_exponent_small; [exact Hex|exact Hd|]. fold n1 m1. lia. }
  rewrite Hval.
  (* m1 * 2^n1 is more than p - 2^n1 *)
  assert (Hfloor : Zpos p < (m1 + 1) * 2 ^ n1).
  { unfold m1. pose proof (Z.mod_pos_bound (Zpos p) (2 ^ n1) Hp1).
    pose proof (Z.div_mod (Zpos p) (2 ^ n1) ltac:(lia)). nia. }
  assert (HfloorQ : (inject_Z (Zpos p) * 2 ^ ex
                     <= (inject_Z m1 + 1) * 2 ^ e1)%Q).
  { apply Z.lt_le_incl in Hfloor.
    rewrite Zle_Qle, inject_Z_mult, inject_Z_plus, pow2_inject in Hfloor
      by exact Hn1.
    change (inject_Z 1) with 1%Q in Hfloor.
    unfold e1. rewrite pow2_add.
    pose proof (pow2_pos ex) as Hpe.
    setoid_replace ((inject_Z m1 + 1) * (2 ^ ex * 2 ^ n1))%Q
      with ((inject_Z m1 + 1) * 2 ^ n1 * 2 ^ ex)%Q by ring.
    apply Qmult_le_compat_r; [exact Hfloor|lra]. }
  assert (HmrQ : (inject_Z m1 <= inject_Z mr)%Q) by (rewrite <- Zle_Qle; lia).
  pose proof (pow2_pos e1) as Hpe1. pose proof (pow2_pos ex) as Hpe.
  pose proof (pow2_pos (-52)) as Hp52. pose proof (pow2_pos (-1074)) as Hpmin.
  assert (Hv : (0 < inject_Z (Zpos p) * 2 ^ ex)%Q) by apply positive_value.
  assert (Hmr1 : (inject_Z m1 * 2 ^ e1 <= inject_Z mr * 2 ^ e1)%Q)
    by (apply Qmult_le_compat_r; lra).
  destruct (Z.eq_dec e1 (d + ex - 53)) as [E|E];
    [|destruct (Z.eq_dec e1 (-1074)) as [E'|E']].
  - rewrite E in *. nra.
  - rewrite E' in *. nra.
  - assert (Hn : n1 = 0) by lia.
    assert (Hm1p : (inject_Z m1 == inject_Z (Zpos p))%Q).
    { unfold m1. now rewrite Hn, Z.pow_0_r, Z.div_1_r. }
    assert (He : (2 ^ e1 == 2 ^ ex)%Q).
    { unfold e1. rewrite Hn, Z.add_0_r. reflexivity. }
    rewrite Hm1p, He in Hmr1. rewrite He. nra.
Qed.

(** The digits of a product of two mantissas. *)
Lemma product_digits m1 e1 m2 e2 :
  bounded prec emax m1 e1 = true -> bounded prec emax m2 e2 = true ->
  Zpos (digits2_pos (m1 * m2)) <= 200.
Proof.
  intros H1 H2. apply bounded_inv in H1. apply bounded_inv in H2.
  destruct H1 as (Hd1 & _ & _). destruct H2 as (Hd2 & _ & _).
  pose proof (digits2_bounds m1) as [_ Hu1].
  pose proof (digits2_bounds m2) as [_ Hu2].
  assert (Zpos m1 < 2 ^ 53)
    by (eapply Z.lt_le_trans; [exact Hu1|apply Z.pow_le_mono_r; lia]).
  assert (Zpos m2 < 2 ^ 53)
    by (eapply Z.lt_le_trans; [exact Hu2|apply Z.pow_le_mono_r; lia]).
  assert (Zdigits2 (Zpos (m1 * m2)) <= 106); [|simpl in *; lia].
  apply Zdigits2_le; [|lia]. rewrite Pos2Z.inj_mul.
  change (2 ^ 106) with (2 ^ 53 * 2 ^ 53). nia.
Qed.

(** The product of two valid positive Numbers, from below. *)
Lemma SFmul_lower m1 e1 m2 e2 :
  bounded prec emax m1 e1 = true -> bounded prec emax m2 e2 = true ->
  e1 + e2 <= 0 ->
  (inject_Z (Zpos m1) * 2 ^ e1 * (inject_Z (Zpos m2) * 2 ^ e2)
   * (1 - 2 ^ (-52)) - 2 ^ (-1074)
   <= Number.SFvalue
        (SFmul prec emax (S754_finite false m1 e1) (S754_finite false m2 e2)))%Q.
Proof.
  intros H1 H2 He. unfold SFmul. simpl xorb.
  pose proof (round_lower (m1 * m2) (e1 + e2) loc_Exact He
                (product_digits m1 e1 m2 e2 H1 H2)) as Hlo.
  rewrite Pos2Z.inj_mul, inject_Z_mult, pow2_add in Hlo.
  eapply Qle_trans; [|exact Hlo].
  apply Qplus_le_compat; [|apply Qle_refl].
  apply Qmult_le_compat_r; [|pose proof tiny_le; rewrite eps_eq; lra].
  apply Qle_lteq. right. ring.
Qed.

(** The quotient of two normal Numbers with small exponents, from below. *)
Lemma SFdiv_lower m1 e1 m2 e2 :
  Zpos (digits2_pos m1) = 53 -> Zpos (digits2_pos m2) = 53 ->
  -52 <= e1 <= 0 -> -52 <= e2 <= 0 ->
  (inject_Z (Zpos m1) * 2 ^ e1 * (1 - 2 * 2 ^ (-52))
   - 2 ^ (-1074) * (inject_Z (Zpos m2) * 2 ^ e2)
   <= Number.SFvalue
        (SFdiv prec emax (S754_finite false m1 e1) (S754_finite false m2 e2))
      * (inject_Z (Zpos m2) * 2 ^ e2))%Q.
Proof.
  intros Hd1 Hd2 He1 He2. unfold SFdiv.
  rewrite SFdiv_core_normal by assumption. simpl xorb.
  pose proof (mantissa_bounds m1 Hd1) as Hm1.
  pose proof (mantissa_bounds m2 Hd2) as Hm2.
  set (q := Zpos m1 * 2 ^ 53 / Zpos m2).
  assert (Hq1 : Zpos m1 * 2 ^ 53 < (q + 1) * Zpos m2).
  { unfold q. pose proof (Z.mod_pos_bound (Zpos m1 * 2 ^ 53) (Zpos m2) ltac:(lia)).
    pose proof (Z.div_mod (Zpos m1 * 2 ^ 53) (Zpos m2) ltac:(lia)). nia. }
  assert (Hq2 : 2 ^ 52 <= q).
  { unfold q. apply Z.div_le_lower_bound; [lia|]. nia. }
  assert (Hq3 : q < 2 ^ 54).
  { unfold q. apply Z.div_lt_upper_bound; [lia|]. nia. }
  destruct q as [|pq|pq] eqn:Hq; [lia| |lia].
  assert (Hdq : Zpos (digits2_pos pq) <= 200).
  { assert (Zdigits2 (Zpos pq) <= 54) by (apply Zdigits2_le; lia).
    simpl in *. lia. }
  pose proof (round_lower pq (e1 - e2 - 53)
                (new_location (Zpos m2) (Zpos m1 * 2 ^ 53 mod Zpos m2))
                ltac:(lia) Hdq) as Hlo.
  set (v := Number.SFvalue _) in *.
  apply Z.lt_le_incl in Hq1.
  rewrite Zle_Qle, !inject_Z_mult, inject_Z_plus, pow2_inject in Hq1 by lia.
  change (inject_Z 1) with 1%Q in Hq1.
  rewrite Zle_Qle in Hq2. change (inject_Z (2 ^ 52)) with (4503599627370496 # 1)%Q in Hq2.
  pose proof (pow2_add (e1 - e2 - 53) e2) as Ha1.
  pose proof (pow2_add 53 (e1 - 53)) as Ha2.
  replace (e1 - e2 - 53 + e2) with (e1 - 53) in Ha1 by lia.
  replace (53 + (e1 - 53)) with e1 in Ha2 by lia.
  pose proof (pow2_pos (e1 - e2 - 53)). pose proof (pow2_pos e2).
  pose proof (pow2_pos (e1 - 53)). pose proof (pow2_pos 53).
  pose proof (pow2_pos e1). pose proof (pow2_pos (-1074)).
  assert (Hm2pos : (0 < inject_Z (Zpos m2))%Q)
    by (rewrite <- (Zlt_Qlt 0); lia).
  assert (Hv2 : (0 < inject_Z (Zpos m2) * 2 ^ e2)%Q)
    by (apply Qmult_lt_0_compat; assumption).
  (* (q + 1) * 2^e' * v2 is at least v1 *)
  assert (Hmain : (inject_Z (Zpos m1) * 2 ^ e1
                   <= (inject_Z (Zpos pq) + 1) * 2 ^ (e1 - e2 - 53)
                      * (inject_Z (Zpos m2) * 2 ^ e2))%Q).
  { setoid_replace ((inject_Z (Zpos pq) + 1) * 2 ^ (e1 - e2 - 53)
                    * (inject_Z (Zpos m2) * 2 ^ e2))%Q
      with (((inject_Z (Zpos pq) + 1) * inject_Z (Zpos m2))
            * (2 ^ (e1 - e2 - 53) * 2 ^ e2))%Q by ring.
    rewrite <- Ha1.
    setoid_replace (inject_Z (Zpos m1) * 2 ^ e1)%Q
      with ((inject_Z (Zpos m1) * 2 ^ 53) * 2 ^ (e1 - 53))%Q
      by (rewrite Ha2; ring).
    apply Qmult_le_compat_r; [exact Hq1|lra]. }
  rewrite eps_eq in *.
  set (v2 := (inject_Z (Zpos m2) * 2 ^ e2)%Q) in *.
  set (v1 := (inject_Z (Zpos m1) * 2 ^ e1)%Q) in *.
  set (u := (2 ^ (e1 - e2 - 53))%Q) in *.
  set (t := (2 ^ (-1074))%Q) in *.
  set (iq := inject_Z (Zpos pq)) in *.
  assert (Hstep : ((iq * u * (1 - (1 # 4503599627370496)) - t) * v2
                   <= v * v2)%Q).
  { apply Qmult_le_compat_r; [exact Hlo|lra]. }
  (* one unit of q is at most 2^-52 of q *)
  assert (Hrel : (u * v2 <= iq * u * v2 * (1 # 4503599627370496))%Q).
  { assert (Huv : (0 < u * v2)%Q) by (apply Qmult_lt_0_compat; assumption).
    nra. }
  nra.
Qed.

(** One coordinate of a click: [lx] pixels into an image displayed [dw]
    pixels wide, or high, whose file is [nw] pixels wide, or high. *)
Section Coordinate.

Variables (lx : float) (nw dw : Z).
Hypothesis displayed : 0 < dw < 2 ^ 32.
Hypothesis natural : 0 <= nw < 2 ^ 32.
Hypothesis inside_low : (0 <=? lx)%float = true.
Hypothesis inside_high : (lx <=? Number.ofZ dw)%float = true.

Lemma dimension_small z : 0 <= z < 2 ^ 32 -> 0 <= z < 2 ^ 53.
Proof. intros H. change (2 ^ 53) with (2 ^ 32 * 2 ^ 21). lia. Qed.

(** The scale factor [naturalWidth / width]: within [2^-51] of the exact
    quotient, relatively (stated without division). *)
Lemma scale_bounds :
  let S := Prim2SF (Number.ofZ nw / Number.ofZ dw) in
  nonneg S = true
  /\ (Number.SFvalue S * inject_Z dw
      <= inject_Z nw * (1 + 2 ^ (-52)) + 2 ^ (-1074) * inject_Z dw)%Q
  /\ (inject_Z nw * (1 - 2 * 2 ^ (-52)) - 2 ^ (-1074) * inject_Z dw
      <= Number.SFvalue S * inject_Z dw)%Q.
Proof.
  pose proof displayed as Hdw. pose proof natural as Hnw.
  intros S. subst S. rewrite div_spec. unfold SF64div.
  assert (Hdw' : Z.abs dw < 2 ^ 53) by (pose proof (dimension_small dw); lia).
  assert (Hnw' : Z.abs nw < 2 ^ 53) by (pose proof (dimension_small nw); lia).
  destruct (ofZ_finite dw ltac:(lia) Hdw') as (m2 & e2 & -> & Hd2 & He2 & Hv2).
  replace (dw <? 0) with false by (symmetry; apply Z.ltb_ge; lia).
  pose proof (scaled_value (Zpos m2) (Z.abs dw) e2 ltac:(lia) Hv2) as Hq2.
  rewrite Z.abs_eq in Hq2 by lia.
  pose proof (pow2_pos (-52)) as Hp52. pose proof (pow2_pos (-1074)) as Hpmin.
  assert (Hdwq : (0 < inject_Z dw)%Q) by (rewrite <- (Zlt_Qlt 0); lia).
  assert (Hnwq : (0 <= inject_Z nw)%Q) by (rewrite <- (Zle_Qle 0); lia).
  destruct (Z.eq_dec nw 0) as [->|Hne].
  - rewrite ofZ_zero.
    change (SFdiv prec emax (S754_zero false) (S754_finite false m2 e2))
      with (S754_zero false).
    split; [reflexivity|].
    change (Number.SFvalue (S754_zero false)) with 0%Q.
    change (inject_Z 0) with 0%Q. split; nra.
  - destruct (ofZ_finite nw Hne Hnw') as (m1 & e1 & -> & Hd1 & He1 & Hv1).
    replace (nw <? 0) with false by (symmetry; apply Z.ltb_ge; lia).
    pose proof (scaled_value (Zpos m1) (Z.abs nw) e1 ltac:(lia) Hv1) as Hq1.
    rewrite Z.abs_eq in Hq1 by lia.
    destruct (SFdiv_upper m1 e1 m2 e2 Hd1 Hd2 He1 He2) as [Hshape Hup].
    pose proof (SFdiv_lower m1 e1 m2 e2 Hd1 Hd2 He1 He2) as Hlo.
    rewrite Hq1, Hq2 in Hup, Hlo. split; [|split; assumption].
    destruct Hshape as [->|(m & e & ->)]; reflexivity.
Qed.

(** The product [x * scaleX] for a click inside the displayed image: zero
    or positive, and within [2^-18] of the exact [x * naturalWidth / width]
    (stated without division). *)
Lemma product_bounds :
  let P := Prim2SF (lx * (Number.ofZ nw / Number.ofZ dw)) in
  nonneg P = true
  /\ (0 <= Number.value lx <= inject_Z dw)%Q
  /\ (Number.SFvalue P * inject_Z dw
      <= Number.value lx * inject_Z nw + inject_Z dw * (1 # 262144))%Q
  /\ (Number.value lx * inject_Z nw - inject_Z dw * (1 # 262144)
      <= Number.SFvalue P * inject_Z dw)%Q.
Proof.
  pose proof displayed as Hdw. pose proof natural as Hnw.
  pose proof inside_low as H0. pose proof inside_high as Hle.
  intros P. subst P. unfold Number.value.
  assert (Hdw' : 0 <= dw < 2 ^ 53) by (apply dimension_small; lia).
  pose proof (ofZ_nonneg dw Hdw') as Ndw.
  pose proof (leb_zero_nonneg lx _ H0 Hle (nonneg_isFinite _ Ndw)) as NL.
  (* the click is at most the displayed width *)
  assert (HL : (Number.SFvalue (Prim2SF lx) <= inject_Z dw)%Q).
  { rewrite leb_spec in Hle.
    apply SFleb_nonneg in Hle; try apply Prim2SF_valid; try assumption.
    pose proof (ofZ_value dw ltac:(lia)) as Hv. unfold Number.value in Hv.
    now rewrite Hv in Hle. }
  pose proof (nonneg_value _ NL) as HL0.
  destruct scale_bounds as (NS & HS & HS').
  pose proof (Prim2SF_valid lx) as VL.
  pose proof (Prim2SF_valid (Number.ofZ nw / Number.ofZ dw)) as VS.
  rewrite mul_spec. unfold SF64mul.
  pose proof (pow2_pos (-52)) as Hp52. pose proof tiny_le as Htiny.
  pose proof (pow2_pos (-1074)) as Hpmin.
  assert (Hdwq : (1 <= inject_Z dw)%Q) by (rewrite <- (Zle_Qle 1); lia).
  assert (Hdwu : (inject_Z dw <= 4294967296 # 1)%Q).
  { change (4294967296 # 1)%Q with (inject_Z (2 ^ 32)).
    rewrite <- Zle_Qle. lia. }
  assert (Hnwq : (0 <= inject_Z nw)%Q) by (rewrite <- (Zle_Qle 0); lia).
  assert (Hnwu : (inject_Z nw <= 4294967296 # 1)%Q).
  { change (4294967296 # 1)%Q with (inject_Z (2 ^ 32)).
    rewrite <- Zle_Qle. lia. }
  rewrite eps_eq in *.
  set (t := (2 ^ (-1074))%Q) in *.
  set (idw := inject_Z dw) in *. set (inw := inject_Z nw) in *.
  destruct (Prim2SF lx) as [sl|sl| |sl ml el]; try discriminate;
    destruct (Prim2SF (Number.ofZ nw / Number.ofZ dw)) as [ss|ss| |ss ms es];
    try discriminate.
  - change (Number.SFvalue (S754_zero sl)) with 0%Q in *.
    change (Number.SFvalue (SFmul prec emax (S754_zero sl) (S754_zero ss)))
      with 0%Q.
    split; [reflexivity|]. split; [lra|]. split; lra.
  - change (Number.SFvalue (S754_zero sl)) with 0%Q in *.
    change (Number.SFvalue
              (SFmul prec emax (S754_zero sl) (S754_finite ss ms es)))
      with 0%Q.
    split; [reflexivity|]. split; [lra|]. split; lra.
  - destruct sl; [discriminate|]. 
    change (Number.SFvalue (S754_finite false ml el))
      with (inject_Z (Zpos ml) * 2 ^ el)%Q in *.
    change (Number.SFvalue (S754_zero ss)) with 0%Q in *.
    set (vl := (inject_Z (Zpos ml) * 2 ^ el)%Q) in *.
    change (Number.SFvalue
              (SFmul prec emax (S754_finite false ml el) (S754_zero ss)))
      with 0%Q.
    split; [reflexivity|]. split; [lra|].
    assert (Hti : (t * idw <= 1 # 4294967296)%Q) by nra.
    assert (Hsmall : (inw <= 1 # 2147483648)%Q) by lra.
    split; nra.
  - destruct sl; [discriminate|]. destruct ss; [discriminate|].
    simpl valid_binary in VL, VS.
    change (Number.SFvalue (S754_finite false ml el))
      with (inject_Z (Zpos ml) * 2 ^ el)%Q in *.
    change (Number.SFvalue (S754_finite false ms es))
      with (inject_Z (Zpos ms) * 2 ^ es)%Q in *.
    pose proof (positive_value ms es) as Hvs.
    pose proof (positive_value ml el) as Hvl.
    set (vl := (inject_Z (Zpos ml) * 2 ^ el)%Q) in *.
    set (vs := (inject_Z (Zpos ms) * 2 ^ es)%Q) in *.
    assert (Hvs' : (vs <= 8589934592 # 1)%Q) by nra.
    assert (Hel : el <= 0).
    { apply (small_value_exponent ml el VL). fold vl.
      change (inject_Z (2 ^ 53)) with (9007199254740992 # 1)%Q. lra. }
    assert (Hes : es <= 0).
    { apply (small_value_exponent ms es VS). fold vs.
      change (inject_Z (2 ^ 53)) with (9007199254740992 # 1)%Q. lra. }
    destruct (SFmul_upper ml el ms es VL VS ltac:(lia)) as [NP HP].
    pose proof (SFmul_lower ml el ms es VL VS ltac:(lia)) as HP'.
    fold vl vs t in HP, HP'. rewrite eps_eq in HP, HP'.
    set (vp := Number.SFvalue _) in *.
    split; [exact NP|]. split; [lra|].
    assert (Hdt : (t * idw <= 1 # 4294967296)%Q) by nra.
    (* the product of the two values, times the displayed width *)
    assert (Hprod_hi : (vl * (vs * idw)
                        <= vl * (inw * (1 + (1 # 4503599627370496)) + t * idw))%Q)
      by (apply (proj2 (Qmult_le_l _ _ _ Hvl)); lra).
    assert (Hprod_lo : (vl * (inw * (1 - 2 * (1 # 4503599627370496)) - t * idw)
                        <= vl * (vs * idw))%Q)
      by (apply (proj2 (Qmult_le_l _ _ _ Hvl)); lra).
    assert (Hvp_hi : (vp * idw
                      <= (vl * vs * (1 + (1 # 4503599627370496)) + t) * idw)%Q)
      by (apply Qmult_le_compat_r; lra).
    assert (Hvp_lo : ((vl * vs * (1 - (1 # 4503599627370496)) - t) * idw
                      <= vp * idw)%Q)
      by (apply Qmult_le_compat_r; lra).
    assert (Hvn : (0 <= vl * inw <= idw * (4294967296 # 1))%Q) by nra.
    assert (Hvt : (0 <= vl * (t * idw) <= idw * (1 # 4294967296))%Q).
    { clear - Hvl HL Hdt Hpmin Hdwq. set (u := (t * idw)%Q) in *.
      assert (Hu : (0 <= u)%Q) by (unfold u; nra).
      clearbody u. split; nra. }
    split; lra.
Qed.

(** The product is below [naturalWidth + 1/2]. *)
Lemma product_upper :
  let P := Prim2SF (lx * (Number.ofZ nw / Number.ofZ dw)) in
  nonneg P = true /\ (Number.SFvalue P < inject_Z nw + (1 # 2))%Q.
Proof.
  pose proof displayed as Hdw. pose proof natural as Hnw.
  destruct product_bounds as (NP & [HL0 HL] & HP & _).
  split; [exact NP|].
  assert (Hdwq : (1 <= inject_Z dw)%Q) by (rewrite <- (Zle_Qle 1); lia).
  assert (Hnwq : (0 <= inject_Z nw)%Q) by (rewrite <- (Zle_Qle 0); lia).
  set (vp := Number.SFvalue _) in *. set (vl := Number.value lx) in *.
  set (idw := inject_Z dw) in *. set (inw := inject_Z nw) in *.
  assert (Hprod : (vl * inw <= idw * inw)%Q)
    by (apply Qmult_le_compat_r; lra).
  nra.
Qed.

(** One coordinate of [mapClickToOriginal]: a click between 0 and the
    displayed width lands on an integer between 0 and the natural width. *)
Lemma coordinate_in_range :
  let r := Number.round (lx * (Number.ofZ nw / Number.ofZ dw)) in
  (0 <=? r)%float = true /\ (r <=? Number.ofZ nw)%float = true
  /\ exists k : Z, 0 <= k <= nw /\ (Number.value r == inject_Z k)%Q.
Proof.
  pose proof natural as Hnw.
  intros r. subst r.
  destruct product_upper as [NP HP].
  set (p := (lx * (Number.ofZ nw / Number.ofZ dw))%float) in *.
  pose proof (round_nonneg p NP) as NR.
  pose proof (round_value p (nonneg_isFinite p NP)) as HR.
  pose proof (nonneg_value _ NP) as HP0. fold (Number.value p) in HP, HP0.
  assert (Hnw' : 0 <= nw < 2 ^ 53) by (apply dimension_small; lia).
  (* the rounded integer is between 0 and the natural width *)
  assert (Hk : 0 <= Qfloor (Number.value p + (1 # 2)) <= nw).
  { pose proof (Qfloor_le (Number.value p + (1 # 2))) as H1.
    pose proof (Qlt_floor (Number.value p + (1 # 2))) as H2.
    set (k := Qfloor (Number.value p + (1 # 2))%Q) in *.
    rewrite inject_Z_plus in H2. change (inject_Z 1) with 1%Q in H2.
    assert (Ha : (inject_Z (-1) < inject_Z k)%Q)
      by (change (inject_Z (-1)) with (-1 # 1)%Q; lra).
    assert (Hb : (inject_Z k < inject_Z (nw + 1))%Q)
      by (rewrite inject_Z_plus; change (inject_Z 1) with 1%Q; lra).
    rewrite <- Zlt_Qlt in Ha, Hb. lia. }
  rewrite !leb_spec. change (Prim2SF 0) with (S754_zero false).
  split; [|split].
  - apply SFleb_nonneg; try apply Prim2SF_valid; try assumption;
      try reflexivity.
    now apply nonneg_value.
  - apply SFleb_nonneg; try apply Prim2SF_valid; try assumption.
    + now apply ofZ_nonneg.
    + fold (Number.value (Number.round p)) (Number.value (Number.ofZ nw)).
      rewrite HR, ofZ_value by lia. rewrite <- Zle_Qle. lia.
  - exists (Qfloor (Number.value p + (1 # 2))). split; [exact Hk|exact HR].
Qed.

(** One coordinate of [mapClickToOriginal] against the exact quotient: the
    two roundings of the arithmetic move it by less than [2^-18], the
    rounding to an integer by at most [1/2]. *)
Lemma coordinate_accuracy :
  let r := Number.round (lx * (Number.ofZ nw / Number.ofZ dw)) in
  (Qabs (Number.value r - Number.value lx * inject_Z nw / inject_Z dw)
   <= (1 # 2) + (1 # 262144))%Q.
Proof.
  pose proof displayed as Hdw.
  intros r. subst r.
  destruct product_bounds as (NP & _ & Hhi & Hlo).
  set (p := (lx * (Number.ofZ nw / Number.ofZ dw))%float) in *.
  pose proof (round_value p (nonneg_isFinite p NP)) as HR.
  fold (Number.value p) in Hhi, Hlo.
  pose proof (Qfloor_le (Number.value p + (1 # 2))) as H1.
  pose proof (Qlt_floor (Number.value p + (1 # 2))) as H2.
  rewrite inject_Z_plus in H2. change (inject_Z 1) with 1%Q in H2.
  rewrite <- HR in H1, H2.
  assert (Hdwq : (1 <= inject_Z dw)%Q) by (rewrite <- (Zle_Qle 1); lia).
  set (idw := inject_Z dw) in *.
  set (q := (Number.value lx * inject_Z nw / idw)%Q).
  assert (Hq : (q * idw == Number.value lx * inject_Z nw)%Q).
  { unfold q. field. lra. }
  rewrite <- Hq in Hhi, Hlo.
  set (vr := Number.value (Number.round p)) in *.
  set (vp := Number.value p) in *.
  assert (Hup : (vp <= q + (1 # 262144))%Q) by nra.
  assert (Hdn : (q - (1 # 262144) <= vp)%Q) by nra.
  apply Qabs_case; intros _; lra.
Qed.

End Coordinate.

(** One coordinate, when the exact position is nearer than [1/2 - 2^-18] to
    an integer: that integer. *)
Lemma coordinate_nearest (lx : float) (nw dw k : Z) :
  0 < dw < 2 ^ 32 -> 0 <= nw < 2 ^ 32 ->
  (0 <=? lx)%float = true -> (lx <=? Number.ofZ dw)%float = true ->
  (Qabs (Number.value lx * inject_Z nw / inject_Z dw - inject_Z k)
   < (1 # 2) - (1 # 262144))%Q ->
  (Number.value (Number.round (lx * (Number.ofZ nw / Number.ofZ dw)))
   == inject_Z k)%Q.
Proof.
  intros Hdw Hnw H0 H1 Hk.
  destruct (coordinate_in_range lx nw dw Hdw Hnw H0 H1)
    as (_ & _ & k' & _ & Hr).
  pose proof (coordinate_accuracy lx nw dw Hdw Hnw H0 H1) as Ha.
  cbv zeta in Ha. rewrite Hr in *.
  set (q := (Number.value lx * inject_Z nw / inject_Z dw)%Q) in *.
  assert (Hlt : (inject_Z (k - 1) < inject_Z k' < inject_Z (k + 1))%Q).
  { change (k - 1) with (k + -1). rewrite !inject_Z_plus.
    change (inject_Z 1) with 1%Q. change (inject_Z (-1)) with (-1 # 1)%Q.
    apply Qabs_Qle_condition in Ha. apply Qabs_Qlt_condition in Hk.
    split; lra. }
  destruct Hlt as [Hl Hu]. rewrite <- Zlt_Qlt in Hl, Hu.
  replace k' with k by lia. reflexivity.
Qed.

(** One coordinate of [mapClickToOriginal] against the exact position
    [q = localX * naturalWidth / displayedWidth]: within [1/2 + 2^-18] of
    it, and the integer nearest to it unless [q] is within [2^-18] of a
    tie. *)
Lemma coordinate_against_exact (lx : float) (nw dw : Z) :
  ulong dw -> ulong nw -> 0 < dw ->
  (0 <=? lx)%float = true -> (lx <=? Number.ofZ dw)%float = true ->
  let r := Number.round (lx * (Number.ofZ nw / Number.ofZ dw)) in
  let q := (Number.value lx * inject_Z nw / inject_Z dw)%Q in
  (Qabs (Number.value r - q) <= (1 # 2) + (1 # 262144))%Q
  /\ forall k : Z,
       (Qabs (q - inject_Z k) < (1 # 2) - (1 # 262144))%Q ->
       (Number.value r == inject_Z k)%Q.
Proof.
  unfold ulong. intros Udw Unw Hdw H0 H1. cbv zeta. split.
  - apply coordinate_accuracy; (assumption || lia).
  - intros k Hk. apply coordinate_nearest; (assumption || lia).
Qed.

(** C7, as the code has it: [mapClickToOriginal] computes
    [x = Math.round (localX * scaleX)] with
    [scaleX = naturalWidth / displayedWidth] computed first, and [y]
    likewise, the quotient and the product each rounded to a binary64
    Number; [Math.round] of a finite Number [v] is [floor (v + 1/2)], the
    nearest integer, the upper one on a tie. For a click inside the
    displayed image, with [q = localX * naturalWidth / displayedWidth] the
    exact position, [x] is within [1/2 + 2^-18] of [q], and [x] is the
    integer nearest to [q] whenever [q] is nearer than [1/2 - 2^-18] to an
    integer: only within [2^-18] of a tie can [x] be the other neighbour.
    A click at (50, 50) of a 1200 x 1600 image displayed at 300 x 400 maps
    to (200, 200). *)
Theorem mapClickToOriginal_rounds_scaled_click :
  forall (lx ly : float) (dw dh nw nh : Z),
    mapClickToOriginal lx ly dw dh nw nh
    = (Number.round (lx * (Number.ofZ nw / Number.ofZ dw)),
       Number.round (ly * (Number.ofZ nh / Number.ofZ dh)))
    /\ (forall v : float,
          Number.isFinite v = true ->
          (Number.value (Number.round v)
           == inject_Z (Qfloor (Number.value v + (1 # 2))))%Q
          /\ (Number.value v - (1 # 2) < Number.value (Number.round v)
              <= Number.value v + (1 # 2))%Q)
    /\ (ulong dw -> ulong nw -> 0 < dw ->
        (0 <=? lx)%float = true -> (lx <=? Number.ofZ dw)%float = true ->
        (Qabs (Number.value (fst (mapClickToOriginal lx ly dw dh nw nh))
               - Number.value lx * inject_Z nw / inject_Z dw)
         <= (1 # 2) + (1 # 262144))%Q
        /\ forall k : Z,
             (Qabs (Number.value lx * inject_Z nw / inject_Z dw - inject_Z k)
              < (1 # 2) - (1 # 262144))%Q ->
             (Number.value (fst (mapClickToOriginal lx ly dw dh nw nh))
              == inject_Z k)%Q)
    /\ (ulong dh -> ulong nh -> 0 < dh ->
        (0 <=? ly)%float = true -> (ly <=? Number.ofZ dh)%float = true ->
        (Qabs (Number.value (snd (mapClickToOriginal lx ly dw dh nw nh))
               - Number.value ly * inject_Z nh / inject_Z dh)
         <= (1 # 2) + (1 # 262144))%Q
        /\ forall k : Z,
             (Qabs (Number.value ly * inject_Z nh / inject_Z dh - inject_Z k)
              < (1 # 2) - (1 # 262144))%Q ->
             (Number.value (snd (mapClickToOriginal lx ly dw dh nw nh))
              == inject_Z k)%Q)
    /\ mapClickToOriginal 50 50 300 400 1200 1600 = (200%float, 200%float).
Proof.
  intros lx ly dw dh nw nh. split; [reflexivity|]. split; [|split; [|split]].
  - intros v Hv. pose proof (round_value v Hv) as H. split; [exact H|].
    pose proof (Qfloor_le (Number.value v + (1 # 2))) as H1.
    pose proof (Qlt_floor (Number.value v + (1 # 2))) as H2.
    rewrite inject_Z_plus in H2. change (inject_Z 1) with 1%Q in H2.
    rewrite H. split; lra.
  - intros Udw Unw Hdw H0 H1. simpl fst.
    exact (coordinate_against_exact lx nw dw Udw Unw Hdw H0 H1).
  - intros Udh Unh Hdh H0 H1. simpl snd.
    exact (coordinate_against_exact ly nh dh Udh Unh Hdh H0 H1).
  - vm_compute. reflexivity.
Qed.

(** C7 at the scenario; at the Number 30.5, which rounds to 31; and at a
    click 5 pixels into an image 61 pixels wide displayed at 14, whose exact
    position 21.79 is nearest to 22, the coordinate returned. *)
Lemma mapClickToOriginal_rounds_scaled_click_sample :
  mapClickToOriginal 50 50 300 400 1200 1600
  = (Number.round (50 * (Number.ofZ 1200 / Number.ofZ 300)),
     Number.round (50 * (Number.ofZ 1600 / Number.ofZ 400)))
  /\ Number.isFinite 30.5 = true
  /\ (Number.value (Number.round 30.5)
      == inject_Z (Qfloor (Number.value 30.5 + (1 # 2))))%Q
  /\ (ulong 14 /\ ulong 61 /\ 0 < 14
      /\ (0 <=? 5)%float = true /\ (5 <=? Number.ofZ 14)%float = true
      /\ (Qabs (Number.value 5 * inject_Z 61 / inject_Z 14 - inject_Z 22)
          < (1 # 2) - (1 # 262144))%Q
      /\ (Qabs (Number.value (fst (mapClickToOriginal 5 0 14 1 61 1))
                - Number.value 5 * inject_Z 61 / inject_Z 14)
          <= (1 # 2) + (1 # 262144))%Q
      /\ (Number.value (fst (mapClickToOriginal 5 0 14 1 61 1))
          == inject_Z 22)%Q)
  /\ mapClickToOriginal 50 50 300 400 1200 1600 = (200%float, 200%float).
Proof.
  assert (U : forall z, 0 <= z < 4294967296 -> ulong z)
    by (intros z H; exact H).
  assert (Hk : (Qabs (Number.value 5 * inject_Z 61 / inject_Z 14 - inject_Z 22)
                < (1 # 2) - (1 # 262144))%Q)
    by (vm_compute; reflexivity).
  pose proof (mapClickToOriginal_rounds_scaled_click 50 50 300 400 1200 1600)
    as (H1 & H2 & _ & _ & H3).
  pose proof (mapClickToOriginal_rounds_scaled_click 5 0 14 1 61 1)
    as (_ & _ & H4 & _).
  destruct (H4 (U 14 ltac:(lia)) (U 61 ltac:(lia)) ltac:(lia) eq_refl eq_refl)
    as [Hacc Hnear].
  split; [exact H1|]. split; [reflexivity|].
  split; [exact (proj1 (H2 30.5%float eq_refl))|]. split; [|exact H3].
  split; [apply U; lia|]. split; [apply U; lia|]. split; [lia|].
  split; [reflexivity|]. split; [reflexivity|].
  split; [exact Hk|]. split; [exact Hacc|exact (Hnear 22 Hk)].
Defined.

(** C7 as stated fails: the coordinate is not always the rounding of
    [localX * naturalWidth / displayedWidth]. The click [Sample.clickNearTie]
    is inside an image 1200 pixels wide displayed at 400; its exact position
    is just below 150.5, nearest to 150, and the coordinate computed is 151,
    because the product of the Numbers is rounded to 150.5 before
    [Math.round] sees it. And for a click 7 pixels into an image 61 pixels
    wide displayed at 14 the exact position is the tie 30.5: the code gives
    30, where [Math.round (7 * 61 / 14)] on Numbers gives 31. *)
Lemma rounded_product_is_not_rounded_quotient :
  (ulong 400 /\ ulong 1200
   /\ (0 <=? Sample.nearTie)%float = true
   /\ (Sample.nearTie <=? Number.ofZ 400)%float = true)
  /\ clickPosition Sample.clickNearTie
     = mapClickToOriginal Sample.nearTie 50 400 300 1200 900
  /\ fst (mapClickToOriginal Sample.nearTie 50 400 300 1200 900) = 151%float
  /\ (Qabs (Number.value Sample.nearTie * inject_Z 1200 / inject_Z 400
            - inject_Z 150) < 1 # 2)%Q
  /\ Qfloor (Number.value Sample.nearTie * inject_Z 1200 / inject_Z 400
             + (1 # 2)) = 150
  /\ fst (mapClickToOriginal 7 0 14 1 61 1) = 30%float
  /\ (Number.value 7 * inject_Z 61 / inject_Z 14 == 61 # 2)%Q
  /\ Number.round (7 * 61 / 14) = 31%float.
Proof.
  split; [unfold ulong; repeat split; (lia || reflexivity)|].
  repeat split; vm_compute; reflexivity.
Qed.

(** C8: for dimensions of the image element (unsigned long) with
    [displayedWidth > 0], [displayedHeight > 0], [naturalWidth >= 0] and
    [naturalHeight >= 0], and a click with [0 <= localX <= displayedWidth]
    and [0 <= localY <= displayedHeight], the pair [mapClickToOriginal]
    returns has [0 <= x <= naturalWidth] and [0 <= y <= naturalHeight]; each
    coordinate is moreover an integer. *)
Theorem click_maps_inside_image :
  forall (lx ly : float) (dw dh nw nh : Z),
    ulong dw -> ulong dh -> ulong nw -> ulong nh ->
    0 < dw -> 0 < dh -> 0 <= nw -> 0 <= nh ->
    (0 <=? lx)%float = true -> (lx <=? Number.ofZ dw)%float = true ->
    (0 <=? ly)%float = true -> (ly <=? Number.ofZ dh)%float = true ->
    let x := fst (mapClickToOriginal lx ly dw dh nw nh) in
    let y := snd (mapClickToOriginal lx ly dw dh nw nh) in
    ((0 <=? x)%float = true /\ (x <=? Number.ofZ nw)%float = true
     /\ exists k : Z, 0 <= k <= nw /\ (Number.value x == inject_Z k)%Q)
    /\ ((0 <=? y)%float = true /\ (y <=? Number.ofZ nh)%float = true
        /\ exists k : Z, 0 <= k <= nh /\ (Number.value y == inject_Z k)%Q).
Proof.
  intros lx ly dw dh nw nh Udw Udh Unw Unh Hdw Hdh Hnw Hnh Hx0 Hx1 Hy0 Hy1.
  unfold ulong in *. simpl fst. simpl snd. split.
  - apply coordinate_in_range; (assumption || lia).
  - apply coordinate_in_range; (assumption || lia).
Qed.

(** C8 at the corner of the sample image: the click (300, 400) of the
    displayed image maps to (1200, 1600). *)
Lemma click_maps_inside_image_sample :
  (ulong 300 /\ ulong 400 /\ ulong 1200 /\ ulong 1600)
  /\ ((0 <=? 300)%float = true /\ (300 <=? Number.ofZ 300)%float = true)
  /\ ((0 <=? 400)%float = true /\ (400 <=? Number.ofZ 400)%float = true)
  /\ ((0 <=? fst (mapClickToOriginal 300 400 300 400 1200 1600))%float = true
      /\ (fst (mapClickToOriginal 300 400 300 400 1200 1600)
           <=? Number.ofZ 1200)%float = true)
  /\ ((0 <=? snd (mapClickToOriginal 300 400 300 400 1200 1600))%float = true
      /\ (snd (mapClickToOriginal 300 400 300 400 1200 1600)
           <=? Number.ofZ 1600)%float = true).
Proof.
  assert (U : forall z, 0 <= z < 4294967296 -> ulong z)
    by (intros z H; exact H).
  pose proof (click_maps_inside_image 300 400 300 400 1200 1600
                (U 300 ltac:(lia)) (U 400 ltac:(lia))
                (U 1200 ltac:(lia)) (U 1600 ltac:(lia))
                ltac:(lia) ltac:(lia) ltac:(lia) ltac:(lia)
                eq_refl eq_refl eq_refl eq_refl)
    as [(X0 & X1 & _) (Y0 & Y1 & _)].
  split; [repeat split; apply U; lia|].
  split; [split; reflexivity|]. split; [split; reflexivity|].
  split; [split; [exact X0|exact X1] | split; [exact Y0|exact Y1]].
Defined.

(** The quotient is rounded before it is multiplied: for a click 7 pixels
    into an image 61 pixels wide displayed at 14, [7 * (61 / 14)] is just
    below 30.5 and rounds to 30, where [7 * 61 / 14] is 30.5 and would
    round to 31. *)
Lemma scale_is_rounded_first :
  fst (mapClickToOriginal 7 0 14 1 61 1) = 30%float
  /\ Number.round (7 * 61 / 14) = 31%float.
Proof. split; vm_compute; reflexivity. Qed.

(* ===================================================================== *)
(** ** The sections of the page *)
(* ===================================================================== *)

Lemma handleImageClick_frame event st :
  selectedFile (handleImageClick event st) = selectedFile st
  /\ imagePreview (handleImageClick event st) = imagePreview st
  /\ extractedText (handleImageClick event st) = extractedText st
  /\ isEditMode (handleImageClick event st) = isEditMode st
  /\ fontSize (handleImageClick event st) = fontSize st
  /\ fontColor (handleImageClick event st) = fontColor st.
Proof.
  unfold handleImageClick.
  destruct (negb (isEditMode st)
            || negb (JsString.truthy (JsString.trim (newText st))));
    [repeat split|].
  destruct (clickPosition event). repeat split.
Qed.

Lemma nth_error_some_not_nil {A} (l : list A) i a :
  nth_error l i = Some a -> l <> [].
Proof. intros H ->. destruct i; discriminate. Qed.

Lemma sectionsNest_step e w w' :
  step e w = Some w' -> sectionsNest w -> sectionsNest w'.
Proof.
  unfold sectionsNest.
  intros Hstep (Hprev & Hsel & Htext).
  destruct e; step_inversion Hstep; cbn [appState pending update sent settled];
    try (split; [exact Hprev|split; [exact Hsel|exact Htext]]).
  - destruct file as [f|]; simpl.
    + split; [reflexivity|]. split; [discriminate|reflexivity].
    + split; [exact Hprev|split; [exact Hsel|exact Htext]].
  - destruct file as [f|]; [|split; [exact Hprev|split; [exact Hsel|exact Htext]]].
    unfold handleDrop.
    destruct (JsString.startsWith (file_type f) (js "image/")); simpl.
    + split; [reflexivity|]. split; [discriminate|reflexivity].
    + split; [exact Hprev|split; [exact Hsel|exact Htext]].
  - unfold rendersExtractButton in Hguard.
    unfold handleUploadAndOCR.
    destruct (selectedFile (appState w)) as [f|] eqn:Hf; [|discriminate].
    simpl. rewrite Hf. split; [exact Hprev|]. split; [discriminate|exact Htext].
  - simpl. split; [exact Hprev|]. split; [|discriminate].
    intros Hnone. destruct (Hsel Hnone) as [Hp _].
    now elim (nth_error_some_not_nil _ _ _ Hguard).
  - simpl. split; [exact Hprev|]. split; [|exact Htext].
    intros Hnone. destruct (Hsel Hnone) as [Hp Hr]. rewrite Hp.
    split; [now destruct i|exact Hr].
  - simpl. split; [exact Hprev|]. split; [exact Hsel|].
    intros Hnone. unfold rendersTextArea in Hguard.
    rewrite (Htext Hnone) in Hguard. discriminate.
  - destruct (handleImageClick_frame event (appState w))
      as (-> & -> & -> & _).
    rewrite handleImageClick_ocrResult.
    split; [exact Hprev|split; [exact Hsel|exact Htext]].
Qed.

Lemma sectionsNest_reachable w : reachable w -> sectionsNest w.
Proof.
  intros Hw. induction Hw as [|e w0 w1 _ IH Hstep].
  - split; [reflexivity|]. split; [now split|reflexivity].
  - exact (sectionsNest_step e w0 w1 Hstep IH).
Qed.

Lemma oneAtATime_reachable w : reachable w -> oneAtATime w.
Proof.
  intros Hw. induction Hw as [|e w0 w1 _ IH Hstep].
  - now left.
  - exact (oneAtATime_step e w0 w1 Hstep IH).
Qed.

(** X2: in every state a session can reach, the preview is there exactly
    when a file is selected; a result, or an upload under way, is there only
    with a selected file; and an extracted text is there only with a result:
    the text area is never shown without the editing tools, and its
    confidence label always has a result to read. *)
Theorem page_sections_nest :
  forall w : World,
    reachable w ->
    isSome (imagePreview (appState w)) = isSome (selectedFile (appState w))
    /\ (pending w <> [] -> selectedFile (appState w) <> None)
    /\ (ocrResult (appState w) <> None -> selectedFile (appState w) <> None)
    /\ (rendersTextArea (appState w) = true ->
        rendersTools (appState w) = true).
Proof.
  intros w Hw. destruct (sectionsNest_reachable w Hw) as (Hprev & Hsel & Htext).
  split; [exact Hprev|]. split; [|split].
  - intros Hp Hnone. now destruct (Hsel Hnone).
  - intros Hr Hnone. now destruct (Hsel Hnone).
  - unfold rendersTextArea, rendersTools. intros Ht.
    destruct (ocrResult (appState w)); [reflexivity|].
    rewrite Htext in Ht by reflexivity. discriminate.
Qed.

(** At the annotated sample session. *)
Lemma page_sections_nest_sample :
  reachable Sample.annotated
  /\ isSome (imagePreview (appState Sample.annotated))
     = isSome (selectedFile (appState Sample.annotated))
  /\ (rendersTextArea (appState Sample.annotated) = true ->
      rendersTools (appState Sample.annotated) = true).
Proof.
  assert (Hr : reachable Sample.annotated).
  { apply (run_from_init Sample.annotate). vm_compute. reflexivity. }
  split; [exact Hr|].
  destruct (page_sections_nest Sample.annotated Hr) as (H1 & _ & _ & H4).
  split; [exact H1|exact H4].
Defined.

(* ===================================================================== *)
(** ** The extract button and its request *)
(* ===================================================================== *)

(** X3: the extract button, when it can be pressed, posts the selected
    file: the early return of [handleUploadAndOCR] is never taken from the
    page. The press raises the loading flag and changes nothing else, and
    the button cannot be pressed again until the request has settled. *)
Theorem extract_button_posts_selected_file :
  forall w w' : World,
    step ExtractClick w = Some w' ->
    exists f : File,
      selectedFile (appState w) = Some f
      /\ handleUploadAndOCR (appState w)
         = (appState w |> setIsLoading true, Some f)
      /\ appState w' = (appState w |> setIsLoading true)
      /\ pending w' = (pending w ++ [f])%list
      /\ step ExtractClick w' = None.
Proof.
  intros w w' Hstep. step_inversion Hstep.
  unfold rendersExtractButton in Hguard. unfold handleUploadAndOCR.
  destruct (selectedFile (appState w)) as [f|] eqn:Hf; [|discriminate].
  exists f. simpl. unfold rendersExtractButton. simpl.
  rewrite andb_false_r. repeat split.
Qed.

(** At the sample page with [fileA] selected. *)
Lemma extract_button_posts_selected_file_sample :
  step ExtractClick Sample.selected = Some Sample.extracting
  /\ exists f : File,
      selectedFile (appState Sample.selected) = Some f
      /\ handleUploadAndOCR (appState Sample.selected)
         = (appState Sample.selected |> setIsLoading true, Some f)
      /\ appState Sample.extracting
         = (appState Sample.selected |> setIsLoading true)
      /\ pending Sample.extracting = (pending Sample.selected ++ [f])%list
      /\ step ExtractClick Sample.extracting = None.
Proof.
  split; [reflexivity|].
  exact (extract_button_posts_selected_file
           Sample.selected Sample.extracting eq_refl).
Defined.

(** X4: the loading flag is never stuck. In a reachable state whose flag
    is up exactly one request is pending, and its settling, with a response
    or with a failure, lowers the flag, leaves nothing pending and brings
    the extract button back; a failure changes nothing else. *)
Theorem loading_flag_is_lowered :
  forall w : World,
    reachable w ->
    isLoading (appState w) = true ->
    exists f : File,
      pending w = [f]
      /\ (forall data : OcrResult,
            exists w' : World,
              step (ExtractFulfilled 0 data) w = Some w'
              /\ isLoading (appState w') = false
              /\ pending w' = []
              /\ rendersExtractButton (appState w') = true)
      /\ (exists w' : World,
            step (ExtractRejected 0) w = Some w'
            /\ appState w' = (appState w |> setIsLoading false)
            /\ pending w' = []
            /\ rendersExtractButton (appState w') = true).
Proof.
  intros w Hw Hl.
  destruct (oneAtATime_reachable w Hw) as [[_ Hc]|(f & Hp & _)];
    [congruence|].
  destruct (sectionsNest_reachable w Hw) as (_ & Hsel & _).
  assert (Hf : isSome (selectedFile (appState w)) = true).
  { destruct (selectedFile (appState w)); [reflexivity|].
    destruct (Hsel eq_refl) as [Hn _]. congruence. }
  exists f. split; [exact Hp|]. split.
  - intros data. simpl. rewrite Hp. simpl. eexists. split; [reflexivity|].
    simpl. rewrite Hp. unfold rendersExtractButton. simpl. now rewrite Hf.
  - simpl. rewrite Hp. simpl. eexists. split; [reflexivity|].
    simpl. rewrite Hp. unfold rendersExtractButton. simpl. now rewrite Hf.
Qed.

(** At the sample page whose extraction is under way. *)
Lemma loading_flag_is_lowered_sample :
  reachable Sample.extracting
  /\ isLoading (appState Sample.extracting) = true
  /\ exists f : File,
      pending Sample.extracting = [f]
      /\ (forall data : OcrResult,
            exists w' : World,
              step (ExtractFulfilled 0 data) Sample.extracting = Some w'
              /\ isLoading (appState w') = false
              /\ pending w' = []
              /\ rendersExtractButton (appState w') = true)
      /\ (exists w' : World,
            step (ExtractRejected 0) Sample.extracting = Some w'
            /\ appState w' = (appState Sample.extracting |> setIsLoading false)
            /\ pending w' = []
            /\ rendersExtractButton (appState w') = true).
Proof.
  assert (Hr : reachable Sample.extracting).
  { apply (run_from_init [FileChange (Some Sample.fileA) Sample.urlA;
                          ExtractClick]).
    vm_compute. reflexivity. }
  split; [exact Hr|]. split; [reflexivity|].
  exact (loading_flag_is_lowered Sample.extracting Hr eq_refl).
Defined.

(** A handler that leaves the annotations alone leaves their origins. *)
Lemma retrack_same before after o :
  List.length o = List.length (textEdits before) ->
  textEdits after = textEdits before ->
  retrack before after o = o.
Proof.
  intros Ho He. unfold retrack. rewrite He, <- Ho, Nat.sub_diag, firstn_all.
  apply app_nil_r.
Qed.

(** X5: a failed extraction leaves no trace. From a reachable page,
    pressing the extract button and having the request fail gives back the
    page as it was before the press: every cell of the state, and nothing
    pending. *)
Theorem failed_extraction_restores_page :
  forall (w w1 w2 : World) (i : nat),
    reachable w ->
    step ExtractClick w = Some w1 ->
    step (ExtractRejected i) w1 = Some w2 ->
    w2 = w.
Proof.
  intros w w1 w2 i Hw H1 H2.
  pose proof (oneAtATime_reachable w Hw) as Hone.
  pose proof (origin_tracks_edits w Hw) as Ho.
  step_inversion H1. unfold rendersExtractButton in Hguard.
  apply andb_prop in Hguard. destruct Hguard as [Hsel Hload].
  apply negb_true_iff in Hload.
  destruct Hone as [[Hp _]|(g & _ & Hl)]; [|congruence].
  revert H2. unfold handleUploadAndOCR.
  destruct (selectedFile (appState w)) as [f|] eqn:Hf; [|discriminate].
  intros H2. simpl in H2. rewrite Hp in H2. simpl in H2.
  destruct i as [|i]; simpl in H2; [|destruct i; discriminate].
  inversion H2; subst; clear H2.
  destruct w as [st p o].
  cbn [appState pending origin update sent settled fst snd] in *. subst p.
  unfold settled, update, sent.
  cbn [appState pending origin remove_nth app].
  rewrite (retrack_same st (setIsLoading true st) o Ho eq_refl).
  rewrite (retrack_same (setIsLoading true st)
             (handleUploadAndOCR_rejected (setIsLoading true st)) o Ho eq_refl).
  f_equal. destruct st; simpl in *. now subst.
Qed.

(** From the sample page with [fileA] selected. *)
Lemma failed_extraction_restores_page_sample :
  reachable Sample.selected
  /\ step ExtractClick Sample.selected = Some Sample.extracting
  /\ exists w2 : World,
      step (ExtractRejected 0) Sample.extracting = Some w2
      /\ w2 = Sample.selected.
Proof.
  assert (Hr : reachable Sample.selected).
  { apply (run_from_init [FileChange (Some Sample.fileA) Sample.urlA]).
    vm_compute. reflexivity. }
  split; [exact Hr|]. split; [reflexivity|].
  eexists. split; [reflexivity|].
  exact (failed_extraction_restores_page
           Sample.selected Sample.extracting _ 0 Hr eq_refl eq_refl).
Defined.

(** At the sample page whose extraction is under way. *)
Lemma single_extraction_in_flight_sample :
  reachable Sample.extracting
  /\ (List.length (pending Sample.extracting) <= 1)%nat
  /\ (isLoading (appState Sample.extracting) = true
      <-> pending Sample.extracting <> []).
Proof.
  assert (Hr : reachable Sample.extracting).
  { apply (run_from_init [FileChange (Some Sample.fileA) Sample.urlA;
                          ExtractClick]).
    vm_compute. reflexivity. }
  split; [exact Hr|].
  exact (single_extraction_in_flight Sample.extracting Hr).
Defined.

(** X6: a page without a result is inert. In every state a session can
    reach while it holds no result, there is no annotation, edit mode is
    off and the extracted text is empty; the tools, the text area and the
    clear and download buttons are off the page; and a click on the preview
    changes nothing. *)
Theorem page_without_result_is_inert :
  forall w : World,
    reachable w ->
    ocrResult (appState w) = None ->
    (textEdits (appState w) = []
     /\ isEditMode (appState w) = false
     /\ extractedText (appState w) = [])
    /\ (rendersTools (appState w) = false
        /\ rendersTextArea (appState w) = false
        /\ rendersEditButtons (appState w) = false)
    /\ forall event : MouseEvent,
         handleImageClick event (appState w) = appState w.
Proof.
  intros w Hw Hnone.
  destruct (edits_need_result w Hw Hnone) as [He Hm].
  destruct (sectionsNest_reachable w Hw) as (_ & _ & Ht).
  specialize (Ht Hnone).
  split; [now repeat split|]. split.
  - unfold rendersTools, rendersTextArea, rendersEditButtons.
    rewrite Hnone, Ht. now repeat split.
  - intros event. apply handleImageClick_refused. now left.
Qed.

(** At the sample page where [fileB] was selected while [fileA] was being
    extracted. *)
Lemma page_without_result_is_inert_sample :
  reachable Sample.reselected
  /\ ocrResult (appState Sample.reselected) = None
  /\ textEdits (appState Sample.reselected) = []
  /\ handleImageClick Sample.click (appState Sample.reselected)
     = appState Sample.reselected.
Proof.
  assert (Hr : reachable Sample.reselected).
  { apply (run_from_init Sample.reselect). vm_compute. reflexivity. }
  split; [exact Hr|]. split; [reflexivity|].
  destruct (page_without_result_is_inert Sample.reselected Hr eq_refl)
    as ((H1 & _) & _ & H2).
  split; [exact H1|exact (H2 Sample.click)].
Defined.

(* ===================================================================== *)
(** ** The text area *)
(* ===================================================================== *)

Lemma extractedText_step e w w' :
  step e w = Some w' ->
  extractedText (appState w) = [] ->
  isResponse e = false ->
  extractedText (appState w') = [].
Proof.
  intros Hstep Hempty Hresp.
  destruct e; try discriminate Hresp; step_inversion Hstep;
    cbn [appState update sent settled]; try exact Hempty.
  - now destruct file.
  - destruct file as [f|]; [|exact Hempty]. unfold handleDrop.
    now destruct (JsString.startsWith (file_type f) (js "image/")).
  - destruct (handleUploadAndOCR_cells (appState w)) as [-> | ->];
      exact Hempty.
  - unfold rendersTextArea in Hguard. rewrite Hempty in Hguard. discriminate.
  - destruct (handleImageClick_frame event (appState w)) as (_ & _ & -> & _).
    exact Hempty.
Qed.

(** X7: an empty extracted text cannot be filled from the page. The text
    area is rendered for a non-empty text only: once the text is empty
    (nothing extracted yet, nothing recognised, or everything deleted in the
    text area), no sequence of events without a new response changes it, and
    the text area stays off the page. *)
Theorem empty_text_stays_empty :
  forall (es : list Event) (w w' : World),
    extractedText (appState w) = [] ->
    forallb (fun e => negb (isResponse e)) es = true ->
    run es w = Some w' ->
    extractedText (appState w') = []
    /\ rendersTextArea (appState w') = false
    /\ forall v : jsstring, step (TextAreaChange v) w' = None.
Proof.
  intros es w w' Hempty Hes Hrun.
  assert (H : extractedText (appState w') = []).
  { revert w Hempty Hrun.
    induction es as [|e es IH]; simpl; intros w Hempty Hrun.
    - now inversion Hrun; subst.
    - simpl in Hes. apply andb_prop in Hes. destruct Hes as [He Hes].
      apply negb_true_iff in He.
      destruct (step e w) as [w1|] eqn:Hstep; [|discriminate].
      apply (IH Hes w1); [|exact Hrun].
      exact (extractedText_step e w w1 Hstep Hempty He). }
  split; [exact H|].
  unfold step, rendersTextArea. rewrite H. now split.
Qed.

(** From the sample page whose text was deleted: edit mode left, an
    extraction that fails, a text typed, the image clicked. *)
Lemma empty_text_stays_empty_sample :
  extractedText (appState Sample.emptied) = []
  /\ (exists w' : World,
        run [EditModeClick; ExtractClick; ExtractRejected 0;
             NewTextChange (js "Hi"); ImageClick Sample.click]
            Sample.emptied = Some w'
        /\ extractedText (appState w') = []
        /\ rendersTextArea (appState w') = false
        /\ forall v : jsstring, step (TextAreaChange v) w' = None).
Proof.
  split; [reflexivity|].
  eexists. split; [vm_compute; reflexivity|].
  exact (empty_text_stays_empty
           [EditModeClick; ExtractClick; ExtractRejected 0;
            NewTextChange (js "Hi"); ImageClick Sample.click]
           Sample.emptied _ eq_refl eq_refl eq_refl).
Defined.

(* ===================================================================== *)
(** ** The annotation sequence over a session *)
(* ===================================================================== *)

(** What one event does to the annotation sequence: it keeps it, or
    empties it (an accepted file, the clear button), or extends it at its
    end by the one annotation of an accepted click. *)
Lemma textEdits_step :
  forall (e : Event) (w w' : World),
    step e w = Some w' ->
    textEdits (appState w') = textEdits (appState w)
    \/ (textEdits (appState w') = [] /\ clearsEdits e = true)
    \/ (exists event : MouseEvent,
          e = ImageClick event
          /\ isEditMode (appState w) = true
          /\ JsString.blank (newText (appState w)) = false
          /\ textEdits (appState w')
             = (textEdits (appState w)
                ++ [placed (appState w) (newText (appState w)) event])%list).
Proof.
  intros e w w' Hstep.
  destruct e; step_inversion Hstep; cbn [appState update sent settled];
    try (left; reflexivity).
  - destruct file as [f|]; [|left; reflexivity].
    right; left. split; reflexivity.
  - destruct file as [f|]; [|left; reflexivity]. unfold handleDrop. simpl.
    destruct (JsString.startsWith (file_type f) (js "image/"));
      [|left; reflexivity].
    right; left. split; reflexivity.
  - left. now destruct (handleUploadAndOCR_cells (appState w)) as [-> | ->].
  - destruct (isEditMode (appState w)) eqn:Hm.
    2:{ left. now rewrite handleImageClick_refused by now left. }
    destruct (JsString.blank (newText (appState w))) eqn:Hb.
    { left. now rewrite handleImageClick_refused by now right. }
    right; right. exists event.
    rewrite (handleImageClick_accepted event (appState w) Hm Hb).
    repeat split.
  - right; left. split; reflexivity.
Qed.

(** X8: the pending fields change through their own controls only. Over
    any event of the page, the font size stays as it is unless the range
    control sets it, the font colour unless the colour control sets it, the
    pending text unless the text field sets it or a click on the image
    empties it, and edit mode unless its button flips it or an accepted file
    turns it off: responses, failures, clearing and downloading touch none
    of them. *)
Theorem pending_fields_change_by_their_controls :
  forall (e : Event) (w w' : World),
    step e w = Some w' ->
    (fontSize (appState w') = fontSize (appState w)
     \/ exists n : Z, e = FontSizeChange n /\ 12 <= n <= 72
                      /\ fontSize (appState w') = Number.ofZ n)
    /\ (fontColor (appState w') = fontColor (appState w)
        \/ exists v : jsstring, e = FontColorChange v
                                /\ fontColor (appState w') = v)
    /\ (newText (appState w') = newText (appState w)
        \/ (exists v : jsstring, e = NewTextChange v
                                 /\ newText (appState w') = v)
        \/ (exists event : MouseEvent, e = ImageClick event
                                       /\ newText (appState w') = []))
    /\ (isEditMode (appState w') = isEditMode (appState w)
        \/ (e = EditModeClick
            /\ isEditMode (appState w') = negb (isEditMode (appState w)))
        \/ ((exists f url, e = FileChange (Some f) url
                           \/ e = Drop (Some f) url)
            /\ isEditMode (appState w') = false)).
Proof.
  intros e w w' Hstep.
  destruct e; step_inversion Hstep; cbn [appState update sent settled];
    try (repeat split; left; reflexivity).
  - destruct file as [f|]; [|repeat split; left; reflexivity].
    repeat split; try (left; reflexivity).
    right; right. split; [|reflexivity]. exists f, url. now left.
  - destruct file as [f|]; [|repeat split; left; reflexivity].
    unfold handleDrop.
    destruct (JsString.startsWith (file_type f) (js "image/"));
      [|repeat split; left; reflexivity].
    repeat split; try (left; reflexivity).
    right; right. split; [|reflexivity]. exists f, url. now right.
  - destruct (handleUploadAndOCR_cells (appState w)) as [-> | ->];
      repeat split; left; reflexivity.
  - destruct (handleImageClick_frame event (appState w))
      as (_ & _ & _ & -> & -> & ->).
    repeat split; try (left; reflexivity).
    destruct (isEditMode (appState w)) eqn:Hm.
    2:{ left. now rewrite handleImageClick_refused by now left. }
    destruct (JsString.blank (newText (appState w))) eqn:Hb.
    { left. now rewrite handleImageClick_refused by now right. }
    right; right. exists event.
    now rewrite (handleImageClick_accepted event (appState w) Hm Hb).
  - repeat split; try (left; reflexivity).
    right; left. now exists value.
  - apply andb_prop in Hguard. destruct Hguard as [Hguard Hle].
    apply andb_prop in Hguard. destruct Hguard as [_ Hge].
    repeat split; try (left; reflexivity).
    right. exists n. split; [reflexivity|]. split; [lia|].
    simpl. apply parseInt_decimal. lia.
  - repeat split; try (left; reflexivity).
    right. now exists value.
  - repeat split; try (left; reflexivity).
    right; left. now split.
Qed.

(** At the arrival of a response: the font size and the font colour stay. *)
Lemma pending_fields_change_by_their_controls_sample :
  exists w' : World,
    step (ExtractFulfilled 0 Sample.resultA1) Sample.reselected = Some w'
    /\ fontSize (appState w') = fontSize (appState Sample.reselected)
    /\ fontColor (appState w') = fontColor (appState Sample.reselected).
Proof.
  eexists. split; [reflexivity|].
  destruct (pending_fields_change_by_their_controls
              (ExtractFulfilled 0 Sample.resultA1) Sample.reselected _ eq_refl)
    as ([Hs|(n & He & _)] & [Hc|(v & He' & _)] & _);
    try discriminate.
  split; [exact Hs|exact Hc].
Defined.

(* ===================================================================== *)
(** ** Clearing, downloading, clicking twice *)
(* ===================================================================== *)

(** X9: the download button is on the page exactly when
    [downloadEditedImage] would post a request: pressed from the page, the
    handler never takes its alert branch, and where the button is missing
    the handler would only alert. *)
Theorem download_button_where_request_is :
  forall w : World,
    (step DownloadClick w = Some w
     <-> exists r : OcrResult,
           ocrResult (appState w) = Some r
           /\ downloadEditedImage (appState w)
              = Post {| file_id := id r; edits := textEdits (appState w) |})
    /\ (step DownloadClick w = None
        <-> downloadEditedImage (appState w) = Alert (js "No edits to save")).
Proof.
  intros w. unfold step, rendersEditButtons, downloadEditedImage.
  destruct (ocrResult (appState w)) as [r|]; simpl.
  - destruct (textEdits (appState w)) as [|a l]; simpl.
    + split; split; try discriminate; try reflexivity.
      intros (r' & _ & H). discriminate.
    + split; split; try discriminate; try reflexivity.
      intros _. now exists r.
  - split; split; try discriminate; try reflexivity.
    intros (r' & H & _). discriminate.
Qed.

(** X10: the clear button empties the annotation sequence and nothing
    else; after it the clear and the download buttons are off the page, and
    [downloadEditedImage] would refuse. Edit mode, the pending fields and the
    result are as before. *)
Theorem clear_leaves_nothing_to_download :
  forall w w' : World,
    step ClearClick w = Some w' ->
    appState w' = (appState w |> setTextEdits [])
    /\ pending w' = pending w
    /\ downloadEditedImage (appState w') = Alert (js "No edits to save")
    /\ step DownloadClick w' = None
    /\ step ClearClick w' = None.
Proof.
  intros w w' Hstep. step_inversion Hstep.
  unfold clearEdits, step, rendersEditButtons, downloadEditedImage. simpl.
  rewrite andb_false_r.
  repeat split. now destruct (ocrResult (appState w)).
Qed.

(** At the annotated sample session. *)
Lemma clear_leaves_nothing_to_download_sample :
  exists w' : World,
    step ClearClick Sample.annotated = Some w'
    /\ appState w' = (appState Sample.annotated |> setTextEdits [])
    /\ downloadEditedImage (appState w') = Alert (js "No edits to save")
    /\ step DownloadClick w' = None.
Proof.
  eexists. split; [reflexivity|].
  destruct (clear_leaves_nothing_to_download Sample.annotated _ eq_refl)
    as (H1 & _ & H2 & H3 & _).
  split; [exact H1|]. split; [exact H2|exact H3].
Defined.

(** X11: a second click places nothing. Whatever the state and the two
    clicks, [handleImageClick] run twice gives what it gives run once: an
    accepted click empties the pending text, so the next click is refused
    until a text is typed again. *)
Theorem second_click_places_nothing :
  forall (e1 e2 : MouseEvent) (st : State),
    handleImageClick e2 (handleImageClick e1 st) = handleImageClick e1 st.
Proof.
  intros e1 e2 st.
  destruct (isEditMode st) eqn:Hm.
  2:{ rewrite (handleImageClick_refused e1) by now left.
      now rewrite handleImageClick_refused by now left. }
  destruct (JsString.blank (newText st)) eqn:Hb.
  { rewrite (handleImageClick_refused e1) by now right.
    now rewrite handleImageClick_refused by now right. }
  rewrite (handleImageClick_accepted e1 st Hm Hb).
  apply handleImageClick_refused. now right.
Qed.

(* ===================================================================== *)
(** ** From clicks to the request *)
(* ===================================================================== *)

Lemma typeAndClick_run ps : forall w : World,
  rendersPreview (appState w) = true ->
  rendersTools (appState w) = true ->
  isEditMode (appState w) = true ->
  forallb (fun p => negb (JsString.blank (fst p))) ps = true ->
  exists w' : World,
    run (typeAndClick ps) w = Some w'
    /\ textEdits (appState w')
       = (textEdits (appState w)
          ++ map (fun p => placed (appState w) (fst p) (snd p)) ps)%list
    /\ ocrResult (appState w') = ocrResult (appState w)
    /\ (ps <> [] -> newText (appState w') = []).
Proof.
  induction ps as [|[s event] ps IH]; intros w Hprev Htools Hmode Hall.
  - exists w. simpl. rewrite app_nil_r. repeat split. congruence.
  - simpl in Hall. apply andb_prop in Hall. destruct Hall as [Hs Hall].
    apply negb_true_iff in Hs.
    set (st := appState w) in *.
    set (st1 := onNewTextChange s st).
    set (st2 := handleImageClick event st1).
    assert (H2 : st2 = (st1 |> setTextEdits
                              (textEdits st1 ++ [placed st s event])
                            |> setNewText [])).
    { unfold st2. now rewrite (handleImageClick_accepted event st1 Hmode Hs). }
    set (w1 := update w st1). set (w2 := update w1 st2).
    assert (Hrun : run (typeAndClick ((s, event) :: ps)) w
                   = run (typeAndClick ps) w2).
    { change (typeAndClick ((s, event) :: ps))
        with (NewTextChange s :: ImageClick event :: typeAndClick ps).
      cbn [run]. unfold step at 1. fold st. rewrite Htools.
      fold st1 w1. unfold step at 1.
      change (appState w1) with st1.
      change (rendersPreview st1) with (rendersPreview st).
      rewrite Hprev. reflexivity. }
    destruct (IH w2) as (w' & Hw' & Hedits & Hres & Hnew); try assumption.
    + change (appState w2) with st2. now rewrite H2.
    + change (appState w2) with st2. now rewrite H2.
    + change (appState w2) with st2. now rewrite H2.
    + exists w'. rewrite Hrun. split; [exact Hw'|].
      change (appState w2) with st2 in Hedits, Hres.
      rewrite H2 in Hedits, Hres. simpl in Hedits, Hres.
      split; [|split].
      * rewrite Hedits. simpl. rewrite <- app_assoc. reflexivity.
      * exact Hres.
      * intros _. destruct ps as [|p ps].
        { simpl in Hw'. inversion Hw'; subst w'.
          change (appState w2) with st2. now rewrite H2. }
        apply Hnew. discriminate.
Qed.

(** X12: annotations reach the request in the order of the clicks. On a
    page with a result, in edit mode, typing a text that is not blank and
    clicking the image, any number of times, appends one annotation per
    click, in that order, each with the text typed for it and the style of
    the page; the request built afterwards carries the artifact of the
    result and the whole sequence, old entries first, in that same order. *)
Theorem annotations_reach_request_in_click_order :
  forall (ps : list (jsstring * MouseEvent)) (w : World) (r : OcrResult),
    rendersPreview (appState w) = true ->
    ocrResult (appState w) = Some r ->
    isEditMode (appState w) = true ->
    forallb (fun p => negb (JsString.blank (fst p))) ps = true ->
    ps <> [] ->
    exists w' : World,
      run (typeAndClick ps) w = Some w'
      /\ textEdits (appState w')
         = (textEdits (appState w)
            ++ map (fun p => placed (appState w) (fst p) (snd p)) ps)%list
      /\ newText (appState w') = []
      /\ downloadEditedImage (appState w')
         = Post {| file_id := id r;
                   edits := (textEdits (appState w)
                             ++ map (fun p => placed (appState w) (fst p) (snd p))
                                  ps)%list |}.
Proof.
  intros ps w r Hprev Hres Hmode Hall Hne.
  destruct (typeAndClick_run ps w Hprev) as (w' & Hrun & Hedits & Hr & Hnew);
    try assumption.
  { unfold rendersTools. now rewrite Hres. }
  exists w'. split; [exact Hrun|]. split; [exact Hedits|].
  split; [exact (Hnew Hne)|].
  unfold downloadEditedImage. rewrite Hr, Hres, Hedits.
  destruct ps as [|p ps]; [congruence|].
  destruct (textEdits (appState w)); reflexivity.
Qed.

(** Two annotations placed on the sample page: the request carries both, in
    the order of the clicks. *)
Lemma annotations_reach_request_in_click_order_sample :
  rendersPreview (appState Sample.ready) = true
  /\ ocrResult (appState Sample.ready) = Some Sample.resultA1
  /\ isEditMode (appState Sample.ready) = true
  /\ exists w' : World,
      run [NewTextChange (js "Hi"); ImageClick Sample.click;
           NewTextChange (js "Bye"); ImageClick Sample.click2]
          Sample.ready = Some w'
      /\ downloadEditedImage (appState w')
         = Post {| file_id := js "a1";
                   edits := [placed (appState Sample.ready) (js "Hi")
                               Sample.click;
                             placed (appState Sample.ready) (js "Bye")
                               Sample.click2] |}.
Proof.
  split; [reflexivity|]. split; [reflexivity|]. split; [reflexivity|].
  destruct (annotations_reach_request_in_click_order
              [(js "Hi", Sample.click); (js "Bye", Sample.click2)]
              Sample.ready Sample.resultA1 eq_refl eq_refl eq_refl eq_refl
              ltac:(discriminate))
    as (w' & Hrun & _ & _ & Hreq).
  exists w'. split; [exact Hrun|exact Hreq].
Defined.

(** X13: annotations survive everything but a clear and a new file. Over
    any sequence of events with no press of the clear button, no file picked
    and no image dropped, the annotations of the start are still there at
    the end, in their order and unchanged, followed by those placed since:
    at most one for each click on the image. No event removes, reorders or
    rewrites a single annotation. *)
Theorem annotations_survive :
  forall (es : list Event) (w w' : World),
    forallb (fun e => negb (clearsEdits e)) es = true ->
    run es w = Some w' ->
    exists l : list TextEdit,
      textEdits (appState w') = (textEdits (appState w) ++ l)%list
      /\ (List.length l <= List.length (filter isImageClick es))%nat.
Proof.
  induction es as [|e es IH]; simpl; intros w w' Hes Hrun.
  - inversion Hrun; subst. exists []. now rewrite app_nil_r.
  - apply andb_prop in Hes. destruct Hes as [He Hes].
    apply negb_true_iff in He.
    destruct (step e w) as [w1|] eqn:Hstep; [|discriminate].
    destruct (IH w1 w' Hes Hrun) as (l & Hl & Hlen).
    destruct (textEdits_step e w w1 Hstep)
      as [Hk|[[_ Hc]|(event & -> & _ & _ & Ha)]].
    + exists l. rewrite Hl, Hk. split; [reflexivity|].
      destruct (isImageClick e); simpl; lia.
    + congruence.
    + exists (placed (appState w) (newText (appState w)) event :: l).
      rewrite Hl, Ha, <- app_assoc. split; [reflexivity|]. simpl. lia.
Qed.

(** After the annotated sample session and [Sample.later]: the first
    annotation is still first. *)
Lemma annotations_survive_sample :
  exists w' : World,
    run Sample.later Sample.annotated = Some w'
    /\ exists l : list TextEdit,
        textEdits (appState w') = ([Sample.editHi] ++ l)%list
        /\ (List.length l <= 1)%nat.
Proof.
  assert (H : exists w' : World, run Sample.later Sample.annotated = Some w')
    by (eexists; vm_compute; reflexivity).
  destruct H as [w' Hrun]. exists w'. split; [exact Hrun|].
  exact (annotations_survive Sample.later Sample.annotated w' eq_refl Hrun).
Defined.

(** X14: no annotation has a blank text. In every state a session can
    reach, the text of each annotation holds a character that is not white
    space: a click with a blank pending text is refused, and the text is
    stored as it was typed. *)
Theorem annotation_texts_never_blank :
  forall w : World,
    reachable w ->
    forall e : TextEdit,
      In e (textEdits (appState w)) -> JsString.blank (text e) = false.
Proof.
  intros w Hw.
  assert (H : Forall (fun e => JsString.blank (text e) = false)
                (textEdits (appState w))).
  { induction Hw as [|e0 w0 w1 _ IH Hstep]; [constructor|].
    destruct (textEdits_step e0 w0 w1 Hstep)
      as [-> |[[-> _]|(event & _ & _ & Hb & ->)]].
    - exact IH.
    - constructor.
    - apply Forall_app. split; [exact IH|].
      constructor; [exact Hb|constructor]. }
  intros e He. rewrite Forall_forall in H. exact (H e He).
Qed.

(** At the annotated sample session. *)
Lemma annotation_texts_never_blank_sample :
  reachable Sample.annotated
  /\ In Sample.editHi (textEdits (appState Sample.annotated))
  /\ JsString.blank (text Sample.editHi) = false.
Proof.
  assert (Hr : reachable Sample.annotated).
  { apply (run_from_init Sample.annotate). vm_compute. reflexivity. }
  assert (Hin : In Sample.editHi (textEdits (appState Sample.annotated))).
  { left. reflexivity. }
  split; [exact Hr|]. split; [exact Hin|].
  exact (annotation_texts_never_blank Sample.annotated Hr Sample.editHi Hin).
Defined.

(* ===================================================================== *)
(** ** The coordinate mapper at whole pixels and at the edges *)
(* ===================================================================== *)

(** The order of Numbers on small integers is the order of the integers. *)
Lemma ofZ_leb a b :
  0 <= a <= b -> b < 2 ^ 53 -> (Number.ofZ a <=? Number.ofZ b)%float = true.
Proof.
  intros Hab Hb. rewrite leb_spec.
  apply SFleb_nonneg; try apply Prim2SF_valid;
    try (apply ofZ_nonneg; lia).
  fold (Number.value (Number.ofZ a)) (Number.value (Number.ofZ b)).
  rewrite !ofZ_value by lia. rewrite <- Zle_Qle. lia.
Qed.

Lemma zero_leb_ofZ a :
  0 <= a < 2 ^ 53 -> (0 <=? Number.ofZ a)%float = true.
Proof.
  intros Ha. rewrite leb_spec. change (Prim2SF 0) with (S754_zero false).
  apply SFleb_nonneg; try apply Prim2SF_valid; try reflexivity.
  - apply ofZ_nonneg; lia.
  - apply nonneg_value. apply ofZ_nonneg; lia.
Qed.

(** One coordinate for a click at an integer offset whose exact image is an
    integer. *)
Lemma coordinate_exact (j nw dw k : Z) :
  0 < dw < 2 ^ 32 -> 0 <= nw < 2 ^ 32 -> 0 <= j <= dw ->
  j * nw = k * dw ->
  (Number.value
     (Number.round (Number.ofZ j * (Number.ofZ nw / Number.ofZ dw)))
   == inject_Z k)%Q.
Proof.
  intros Hdw Hnw Hj Hk.
  assert (H53 : 2 ^ 32 < 2 ^ 53) by reflexivity.
  apply coordinate_nearest; try assumption.
  - apply zero_leb_ofZ. lia.
  - apply ofZ_leb; lia.
  - rewrite ofZ_value by lia.
    assert (Hq : (inject_Z j * inject_Z nw / inject_Z dw == inject_Z k)%Q).
    { rewrite <- inject_Z_mult, Hk, inject_Z_mult.
      field. intros H. apply (inject_Z_injective dw 0) in H. lia. }
    rewrite Hq. unfold Qminus. rewrite Qplus_opp_r. reflexivity.
Qed.

(** X15: clicks on whole pixels with a whole image are exact. For a click
    at the integer offset [(jx, jy)] of the displayed image, if
    [jx * naturalWidth] is a multiple [kx * displayedWidth] and
    [jy * naturalHeight] a multiple [ky * displayedHeight], the mapper
    returns [(kx, ky)]. So the corners map to the corners: (0, 0) to (0, 0),
    and the far corner [(displayedWidth, displayedHeight)] to
    [(naturalWidth, naturalHeight)]; and with an integer zoom factor every
    whole pixel maps to its exact multiple. *)
Theorem whole_pixels_map_exactly :
  forall (jx jy dw dh nw nh kx ky : Z),
    ulong dw -> ulong dh -> ulong nw -> ulong nh ->
    0 < dw -> 0 < dh ->
    0 <= jx <= dw -> 0 <= jy <= dh ->
    jx * nw = kx * dw -> jy * nh = ky * dh ->
    let p := mapClickToOriginal (Number.ofZ jx) (Number.ofZ jy) dw dh nw nh in
    let far := mapClickToOriginal (Number.ofZ dw) (Number.ofZ dh) dw dh nw nh in
    let near := mapClickToOriginal (Number.ofZ 0) (Number.ofZ 0) dw dh nw nh in
    ((Number.value (fst p) == inject_Z kx)%Q
     /\ (Number.value (snd p) == inject_Z ky)%Q)
    /\ ((Number.value (fst near) == 0)%Q /\ (Number.value (snd near) == 0)%Q)
    /\ ((Number.value (fst far) == inject_Z nw)%Q
        /\ (Number.value (snd far) == inject_Z nh)%Q).
Proof.
  intros jx jy dw dh nw nh kx ky Udw Udh Unw Unh Hdw Hdh Hjx Hjy Hkx Hky.
  unfold ulong in *. cbv zeta. simpl fst. simpl snd.
  split; [|split]; split; apply coordinate_exact; (assumption || lia).
Qed.

(** At the scenario's image, 1200 x 1600 displayed at 300 x 400: the pixel
    (50, 50) maps to (200, 200). *)
Lemma whole_pixels_map_exactly_sample :
  (ulong 300 /\ ulong 400 /\ ulong 1200 /\ ulong 1600)
  /\ (Number.value
        (fst (mapClickToOriginal (Number.ofZ 50) (Number.ofZ 50)
                300 400 1200 1600)) == inject_Z 200)%Q
  /\ (Number.value
        (fst (mapClickToOriginal (Number.ofZ 300) (Number.ofZ 400)
                300 400 1200 1600)) == inject_Z 1200)%Q.
Proof.
  assert (U : forall z, 0 <= z < 4294967296 -> ulong z)
    by (intros z H; exact H).
  split; [repeat split; apply U; lia|].
  destruct (whole_pixels_map_exactly 50 50 300 400 1200 1600 200 200
              (U 300 ltac:(lia)) (U 400 ltac:(lia))
              (U 1200 ltac:(lia)) (U 1600 ltac:(lia))
              ltac:(lia) ltac:(lia) ltac:(lia) ltac:(lia)
              eq_refl eq_refl) as ([Hp _] & _ & [Hf _]).
  split; [exact Hp|exact Hf].
Defined.

(** X16: nothing guards a displayed width of zero. With [img.width = 0]
    the scale is a division by zero, and the [x] the mapper returns is never
    a finite Number, whatever the click and the natural width: it is [NaN]
    or an infinity; and so for [y] with [img.height = 0]. *)
Theorem zero_display_size_gives_no_finite_coordinate :
  forall (lx ly : float) (dw dh nw nh : Z),
    Number.isFinite (fst (mapClickToOriginal lx ly 0 dh nw nh)) = false
    /\ Number.isFinite (snd (mapClickToOriginal lx ly dw 0 nw nh)) = false.
Proof.
  assert (H : forall (l : float) (n : Z),
             Number.isFinite
               (Number.round (l * (Number.ofZ n / Number.ofZ 0))) = false).
  { intros l n.
    assert (Hp : forall s m e,
               Prim2SF (l * (Number.ofZ n / Number.ofZ 0))
               <> S754_finite s m e
               /\ Number.isFinite (l * (Number.ofZ n / Number.ofZ 0)) = false).
    { intros s m e. unfold Number.isFinite.
      rewrite mul_spec, div_spec, ofZ_zero.
      destruct (Prim2SF l) as [sl|sl| |sl ml el];
        destruct (Prim2SF (Number.ofZ n)) as [sn|sn| |sn mn en];
        simpl; split; (discriminate || reflexivity). }
    rewrite round_other by (intros s m e; apply (Hp s m e)).
    apply (Hp false 1%positive 0). }
  intros lx ly dw dh nw nh. simpl fst. simpl snd. split; apply H.
Qed.

(* ===================================================================== *)
(** ** The confidence shown *)
(* ===================================================================== *)

(** X17: the confidence shown is a whole percentage. When the text area
    is on the page and the result carries a confidence between 0 and 100,
    the label shows an integer between 0 and 100, at most one half away from
    the confidence. *)
Theorem confidence_label_is_a_whole_percentage :
  forall (st : State) (r : OcrResult),
    extractedText st <> [] ->
    ocrResult st = Some r ->
    (0 <=? confidence r)%float = true ->
    (confidence r <=? 100)%float = true ->
    exists (v : float) (k : Z),
      confidenceLabel st = Some v
      /\ 0 <= k <= 100
      /\ (Number.value v == inject_Z k)%Q
      /\ (Qabs (Number.value v - Number.value (confidence r)) <= 1 # 2)%Q.
Proof.
  intros st r Ht Hr H0 H100.
  set (c := confidence r) in *.
  assert (N100 : nonneg (Prim2SF 100) = true) by (vm_compute; reflexivity).
  pose proof (leb_zero_nonneg c 100 H0 H100 (nonneg_isFinite _ N100)) as Nc.
  assert (Hc : (Number.value c <= 100)%Q).
  { rewrite leb_spec in H100.
    apply SFleb_nonneg in H100; try apply Prim2SF_valid; try assumption.
    assert (H : (Number.SFvalue (Prim2SF 100) == 100)%Q)
      by (vm_compute; reflexivity).
    unfold Number.value. now rewrite H in H100. }
  pose proof (nonneg_value _ Nc) as Hc0. fold (Number.value c) in Hc0.
  pose proof (round_value c (nonneg_isFinite c Nc)) as Hv.
  pose proof (Qfloor_le (Number.value c + (1 # 2))) as H1.
  pose proof (Qlt_floor (Number.value c + (1 # 2))) as H2.
  rewrite inject_Z_plus in H2. change (inject_Z 1) with 1%Q in H2.
  set (k := Qfloor (Number.value c + (1 # 2))) in *.
  exists (Number.round c), k.
  split; [|split; [|split]].
  - unfold confidenceLabel. rewrite Hr.
    destruct (extractedText st); [congruence|reflexivity].
  - assert (Ha : (inject_Z (-1) < inject_Z k)%Q)
      by (change (inject_Z (-1)) with (-1 # 1)%Q; lra).
    assert (Hb : (inject_Z k < inject_Z 101)%Q)
      by (change (inject_Z 101) with (101 # 1)%Q; lra).
    rewrite <- Zlt_Qlt in Ha, Hb. lia.
  - exact Hv.
  - rewrite Hv. apply Qabs_case; intros _; lra.
Qed.

(** The sample result, with its confidence of 93.5: the label shows 94. *)
Lemma confidence_label_is_a_whole_percentage_sample :
  extractedText (appState Sample.annotated) <> []
  /\ ocrResult (appState Sample.annotated) = Some Sample.resultA1
  /\ (0 <=? confidence Sample.resultA1)%float = true
  /\ (confidence Sample.resultA1 <=? 100)%float = true
  /\ confidenceLabel (appState Sample.annotated) = Some 94%float
  /\ exists (v : float) (k : Z),
      confidenceLabel (appState Sample.annotated) = Some v
      /\ 0 <= k <= 100
      /\ (Number.value v == inject_Z k)%Q
      /\ (Qabs (Number.value v - Number.value (confidence Sample.resultA1))
          <= 1 # 2)%Q.
Proof.
  split; [discriminate|]. split; [reflexivity|].
  split; [reflexivity|]. split; [reflexivity|].
  split; [vm_compute; reflexivity|].
  exact (confidence_label_is_a_whole_percentage
           (appState Sample.annotated) Sample.resultA1
           ltac:(discriminate) eq_refl eq_refl eq_refl).
Defined.

(* ===================================================================== *)
(** ** The font size control: [parseInt] of its value *)
(* ===================================================================== *)

(** The characters of a decimal numeral, one digit at a time. *)
Lemma lit_string_of_uint d :
  js (NilEmpty.string_of_uint d) =
  match d with
  | Decimal.Nil => []
  | Decimal.D0 l => 48%N :: js (NilEmpty.string_of_uint l)
  | Decimal.D1 l => 49%N :: js (NilEmpty.string_of_uint l)
  | Decimal.D2 l => 50%N :: js (NilEmpty.string_of_uint l)
  | Decimal.D3 l => 51%N :: js (NilEmpty.string_of_uint l)
  | Decimal.D4 l => 52%N :: js (NilEmpty.string_of_uint l)
  | Decimal.D5 l => 53%N :: js (NilEmpty.string_of_uint l)
  | Decimal.D6 l => 54%N :: js (NilEmpty.string_of_uint l)
  | Decimal.D7 l => 55%N :: js (NilEmpty.string_of_uint l)
  | Decimal.D8 l => 56%N :: js (NilEmpty.string_of_uint l)
  | Decimal.D9 l => 57%N :: js (NilEmpty.string_of_uint l)
  end.
Proof. destruct d; reflexivity. Qed.

(** One digit read, by computation. *)
Ltac read_digit :=
  match goal with
  | |- Number.digits 10 ?acc (?c :: ?s) = _ =>
      let k := eval vm_compute in (Number.digit 10 c) in
      match k with
      | Some ?v =>
          change (Number.digits 10 acc (c :: s))
            with (Number.digits 10
                    (Some (10 * match acc with Some a => a | None => 0 end + v))
                    s)
      end
  end.

(** [digits] after a first non-zero digit is [Pos.of_uint_acc]. *)
Lemma digits_of_uint_acc d : forall acc : positive,
  Number.digits 10 (Some (Zpos acc)) (js (NilEmpty.string_of_uint d))
  = Some (Zpos (Pos.of_uint_acc d acc)).
Proof.
  induction d; intros acc; rewrite lit_string_of_uint; cbv iota;
    [reflexivity| ..];
    read_digit; cbn [Pos.of_uint_acc]; rewrite <- IHd; do 2 f_equal; lia.
Qed.

(** [digits] on a decimal numeral reads the number it writes. *)
Lemma digits_of_uint d : forall acc : option Z,
  match acc with Some a => a | None => 0 end = 0 ->
  d <> Decimal.Nil ->
  Number.digits 10 acc (js (NilEmpty.string_of_uint d))
  = Some (Z.of_N (Pos.of_uint d)).
Proof.
  induction d; intros acc Hacc Hd; [congruence| ..];
    rewrite lit_string_of_uint; cbv iota; read_digit; rewrite Hacc;
    cbn [Pos.of_uint Z.of_N]; try apply digits_of_uint_acc.
  destruct d; [reflexivity| ..]; apply IHd; (reflexivity || discriminate).
Qed.

(** A decimal numeral has no sign, no prefix and no white space in front. *)
Lemma parseInt_of_uint d :
  d <> Decimal.Nil ->
  Number.parseInt (js (NilEmpty.string_of_uint d))
  = match Z.of_N (Pos.of_uint d) with
    | 0 => zero
    | n => Number.ofZ n
    end.
Proof.
  intros Hd.
  assert (H : Number.parseInt (js (NilEmpty.string_of_uint d))
              = match Number.digits 10 None (js (NilEmpty.string_of_uint d)) with
                | None => nan
                | Some 0 => zero
                | Some n => Number.ofZ n
                end).
  { destruct d; [congruence| ..]; rewrite lit_string_of_uint; cbv iota;
      try reflexivity.
    destruct d; reflexivity. }
  rewrite H, digits_of_uint by (reflexivity || assumption).
  now destruct (Z.of_N (Pos.of_uint d)).
Qed.

(** X18: the font size control reads back what the range control holds.
    [parseInt] of the decimal string of any integer [n >= 0] is the Number
    of [n], so [onFontSizeChange] stores it; and for a value that is empty,
    or white space only, it stores [NaN]: nothing checks what [parseInt]
    returned. *)
Theorem font_size_read_back :
  forall (st : State) (n : Z) (s : jsstring),
    (0 <= n ->
     Number.parseInt (Number.decimal n) = Number.ofZ n
     /\ fontSize (onFontSizeChange (Number.decimal n) st) = Number.ofZ n)
    /\ (JsString.blank s = true ->
        Prim2SF (fontSize (onFontSizeChange s st)) = S754_nan).
Proof.
  intros st n s. split.
  - intros Hn.
    assert (H : Number.parseInt (Number.decimal n) = Number.ofZ n).
    { unfold Number.decimal.
      destruct (Z.to_N n) as [|p] eqn:Hp.
      - replace n with 0 by lia. vm_compute. reflexivity.
      - cbn [N.to_uint]. 
        assert (Hnil : Pos.to_uint p <> Decimal.Nil)
          by apply DecimalPos.Unsigned.to_uint_nonnil.
        replace (NilZero.string_of_uint (Pos.to_uint p))
          with (NilEmpty.string_of_uint (Pos.to_uint p))
          by (now destruct (Pos.to_uint p)).
        rewrite parseInt_of_uint by exact Hnil.
        rewrite DecimalPos.Unsigned.of_to. cbn [Z.of_N].
        f_equal. lia. }
    split; [exact H|]. unfold onFontSizeChange. simpl. exact H.
  - intros Hb. unfold onFontSizeChange. simpl. unfold Number.parseInt.
    apply JsStringFacts.trimStart_nil_iff in Hb. rewrite Hb. reflexivity.
Qed.
